(** * C64-Rewind: [rename_files.py]

    A shallow embedding of the bulk renamer: the string operations it
    applies to file names ([in], [str.replace], [str.strip], [str.lower]),
    the [os.path] functions it calls (POSIX flavour), the directory walk
    with its renames over an abstract file system, and the prompt shell
    [main].  Characters are 8-bit code points (Latin-1). *)

From Stdlib Require Import List Bool Arith ZArith Lia Ascii String.
From Stdlib Require Import DecimalString.
Import ListNotations.
Open Scope string_scope.

(** ** Python string operations *)

Module PyStr.

(** [s.startswith(p)] *)
Fixpoint startswith (s p : string) {struct p} : bool :=
  match p with
  | EmptyString => true
  | String a p' =>
      match s with
      | EmptyString => false
      | String b s' => Ascii.eqb a b && startswith s' p'
      end
  end.

(** [s[n:]] for [0 <= n] *)
Fixpoint drop (n : nat) (s : string) : string :=
  match n, s with
  | O, _ => s
  | S _, EmptyString => EmptyString
  | S k, String _ s' => drop k s'
  end.

(** [s[:n]] for [0 <= n] *)
Fixpoint take (n : nat) (s : string) : string :=
  match n, s with
  | O, _ => EmptyString
  | S _, EmptyString => EmptyString
  | S k, String c s' => String c (take k s')
  end.

(** [s.endswith(p)] *)
Definition endswith (s p : string) : bool :=
  (length p <=? length s)%nat && (drop (length s - length p) s =? p).

(** [f in s]: [f] occurs in [s] as a contiguous substring. *)
Fixpoint contains (f s : string) : bool :=
  startswith s f ||
  match s with
  | EmptyString => false
  | String _ s' => contains f s'
  end.

(** [s.replace("", new)]: [new] goes before every character and at the
    end. *)
Fixpoint interleave (new s : string) : string :=
  match s with
  | EmptyString => new
  | String c s' => new ++ String c (interleave new s')
  end.

(** [s.replace(old, new)] for a non-empty [old]: one pass from the left;
    at a position where [old] starts, [new] is emitted and the following
    [length old - 1] characters are passed over ([skip] counts them);
    elsewhere the character is copied. *)
Fixpoint replace_scan (old new : string) (skip : nat) (s : string) : string :=
  match s with
  | EmptyString => EmptyString
  | String c s' =>
      match skip with
      | S k => replace_scan old new k s'
      | O =>
          if startswith s old
          then new ++ replace_scan old new (length old - 1) s'
          else String c (replace_scan old new 0 s')
      end
  end.

(** [s.replace(old, new)] *)
Definition replace (s old new : string) : string :=
  match old with
  | EmptyString => interleave new s
  | String _ _ => replace_scan old new 0 s
  end.

(** Number of replacements [s.replace(old, _)] makes, [s.count(old)]. *)
Fixpoint count_scan (old : string) (skip : nat) (s : string) : nat :=
  match s with
  | EmptyString => 0
  | String _ s' =>
      match skip with
      | S k => count_scan old k s'
      | O =>
          if startswith s old
          then S (count_scan old (length old - 1) s')
          else count_scan old 0 s'
      end
  end.

Definition count (s old : string) : nat :=
  match old with
  | EmptyString => S (length s)
  | String _ _ => count_scan old 0 s
  end.

(** Python's white space among the code points below 256. *)
Definition isspace (c : ascii) : bool :=
  let n := nat_of_ascii c in
  (((9 <=? n) && (n <=? 13)) || ((28 <=? n) && (n <=? 32))
   || (n =? 133) || (n =? 160))%nat.

Fixpoint lstrip (s : string) : string :=
  match s with
  | EmptyString => EmptyString
  | String c s' => if isspace c then lstrip s' else s
  end.

Fixpoint rstrip (s : string) : string :=
  match s with
  | EmptyString => EmptyString
  | String c s' =>
      match rstrip s' with
      | EmptyString => if isspace c then EmptyString else String c EmptyString
      | t => String c t
      end
  end.

(** [s.strip()] *)
Definition strip (s : string) : string := rstrip (lstrip s).

(** [c.lower()] on a code point below 256: A-Z and the Latin-1 capitals
    (192-222 except the multiplication sign 215) move up by 32. *)
Definition lower_char (c : ascii) : ascii :=
  let n := nat_of_ascii c in
  if (((65 <=? n) && (n <=? 90))
      || ((192 <=? n) && (n <=? 222) && negb (n =? 215)))%nat
  then ascii_of_nat (n + 32) else c.

(** [s.lower()] *)
Fixpoint lower (s : string) : string :=
  match s with
  | EmptyString => EmptyString
  | String c s' => String (lower_char c) (lower s')
  end.

(** [s[1:-1]] *)
Definition slice_1_m1 (s : string) : string :=
  take (length s - 2) (drop 1 s).

(** [str(n)] for a non-negative integer. *)
Definition str_of_nat (n : nat) : string :=
  NilZero.string_of_uint (Nat.to_uint n).

End PyStr.

Import PyStr.

(** ** [os.path] (POSIX flavour) *)

Module PosixPath.

Definition sep : string := "/".

(** [os.path.join(a, b)] *)
Definition join (a b : string) : string :=
  if startswith b sep then b
  else if (a =? "") || endswith a sep then a ++ b
  else a ++ sep ++ b.

(** [p.rfind("/") + 1]: the length of the part of [p] up to and including
    its last separator, 0 when it has none. *)
Fixpoint rfind_sep_succ (p : string) : nat :=
  match p with
  | EmptyString => 0
  | String c p' =>
      match rfind_sep_succ p' with
      | O => if Ascii.eqb c "/" then 1 else 0
      | S k => S (S k)
      end
  end.

(** [s == sep * len(s)] *)
Fixpoint all_sep (s : string) : bool :=
  match s with
  | EmptyString => true
  | String c s' => Ascii.eqb c "/" && all_sep s'
  end.

(** [s.rstrip("/")] *)
Fixpoint rstrip_sep (s : string) : string :=
  match s with
  | EmptyString => EmptyString
  | String c s' =>
      match rstrip_sep s' with
      | EmptyString => if Ascii.eqb c "/" then EmptyString else String c EmptyString
      | t => String c t
      end
  end.

(** [os.path.dirname(p)] *)
Definition dirname (p : string) : string :=
  let i := rfind_sep_succ p in
  let head := take i p in
  if negb (head =? "") && negb (all_sep head) then rstrip_sep head else head.


(** [os.path.isabs(p)] *)
Definition isabs (p : string) : bool := startswith p sep.

(** [p.split("/")] *)
Fixpoint split_sep (p : string) : list string :=
  match p with
  | EmptyString => [EmptyString]
  | String c p' =>
      if Ascii.eqb c "/" then EmptyString :: split_sep p'
      else match split_sep p' with
           | [] => [String c EmptyString]
           | h :: t => String c h :: t
           end
  end.

(** One round of the loop of [normpath] over the components;
    [new_comps] is kept in order, its last element is the top. *)
Definition norm_step (initial_slashes : nat) (new_comps : list string)
    (comp : string) : list string :=
  if (comp =? "") || (comp =? ".") then new_comps
  else if negb (comp =? "..")
          || ((initial_slashes =? 0)%nat && match new_comps with [] => true | _ => false end)
          || match new_comps with [] => false | _ => last new_comps "" =? ".." end
       then (new_comps ++ [comp])%list
       else removelast new_comps.

(** [os.path.normpath(path)] *)
Definition normpath (path : string) : string :=
  if path =? "" then "."
  else
    let initial_slashes :=
      if startswith path sep then
        if startswith path "//" && negb (startswith path "///") then 2 else 1
      else 0 in
    let comps := fold_left (norm_step initial_slashes) (split_sep path) [] in
    let path' := String.concat sep comps in
    let path' := match initial_slashes with
                 | 0 => path'
                 | 1 => "/" ++ path'
                 | _ => "//" ++ path'
                 end in
    if path' =? "" then "." else path'.

(** [os.path.abspath(path)], with the working directory [cwd] that
    [os.getcwd()] answers. *)
Definition abspath (cwd path : string) : string :=
  normpath (if startswith path "/" then path else join cwd path).

End PosixPath.

Import PosixPath.

(** ** The file system the program runs against *)

(** The operating-system calls the program makes, over a state [fs].
    [scandir] answers the names in a directory, split the way [os.walk]
    splits them (directories, everything else), or [None] for an
    [OSError]; [rename] answers the new state or the message of the
    exception it raises. *)
Class FileSystem (fs : Type) := {
  isdir : fs -> string -> bool;
  islink : fs -> string -> bool;
  scandir : fs -> string -> option (list string * list string);
  rename : fs -> string -> string -> fs + string;
  getcwd : fs -> string
}.

(** What the program writes to standard output. *)
Inductive output :=
| Print (line : string)
| Prompt (text : string).

(** The calls made to the file system, with what they answered. *)
Inductive call :=
| Isdir (path : string) (answer : bool)
| Scandir (top : string) (answer : option (list string * list string))
| Islink (path : string) (answer : bool)
| Rename (src dst : string) (error : option string).

Record world (fs : Type) := World {
  disk : fs;
  stdout : list output;
  calls : list call
}.
Arguments World {fs} _ _ _.
Arguments disk {fs} _.
Arguments stdout {fs} _.
Arguments calls {fs} _.

Definition print {fs} (line : string) (w : world fs) : world fs :=
  World (disk w) (stdout w ++ [Print line]) (calls w).

Definition called {fs} (c : call) (w : world fs) : world fs :=
  World (disk w) (stdout w) (calls w ++ [c]).

Definition is_rename (c : call) : bool :=
  match c with Rename _ _ _ => true | _ => false end.

Definition is_rename_ok (c : call) : bool :=
  match c with Rename _ _ None => true | _ => false end.

(** ** [rename_files] *)

Section Renamer.

Context {fs : Type} `{FileSystem fs}.

Variables find_char replace_char : string.

(** The body of [for filename in files], lines 18-28; [count] is threaded
    with the world. *)
Definition rename_one (root : string) (st : world fs * nat) (filename : string)
  : world fs * nat :=
  let (w, count) := st in
  if contains find_char filename then
    let new_filename := replace filename find_char replace_char in
    let old_path := join root filename in
    let new_path := join root new_filename in
    match rename (disk w) old_path new_path with
    | inl disk' =>
        (print ("Renamed: '" ++ filename ++ "' -> '" ++ new_filename ++ "'")
           (called (Rename old_path new_path None)
              (World disk' (stdout w) (calls w))),
         S count)
    | inr e =>
        (print ("Error renaming '" ++ filename ++ "': " ++ e)
           (called (Rename old_path new_path (Some e)) w),
         count)
    end
  else st.

(** [for filename in files: ...] *)
Definition rename_in (root : string) (files : list string)
    (st : world fs * nat) : world fs * nat :=
  fold_left (rename_one root) files st.

(** The tail of [os.walk]: [for dirname in dirs], descending with [rec]
    into each one that is not a symbolic link. *)
Fixpoint walk_dirs (rec : string -> world fs * nat -> option (world fs * nat))
    (top : string) (dirs : list string) (st : world fs * nat)
  : option (world fs * nat) :=
  match dirs with
  | [] => Some st
  | d :: dirs' =>
      let new_path := join top d in
      let l := islink (disk (fst st)) new_path in
      let st' := (called (Islink new_path l) (fst st), snd st) in
      if l then walk_dirs rec top dirs' st'
      else match rec new_path st' with
           | Some st'' => walk_dirs rec top dirs' st''
           | None => None
           end
  end.

(** [for root, dirs, files in os.walk(top): for filename in files: ...],
    top-down: the directory is listed, the body runs on its files, then
    the walk descends.  A directory that cannot be listed is passed over
    ([onerror] is [None]).  [fuel] bounds the depth of the descent; [None]
    is fuel run out. *)
Fixpoint walk (fuel : nat) (top : string) (st : world fs * nat)
  : option (world fs * nat) :=
  match fuel with
  | O => None
  | S fuel' =>
      let listing := scandir (disk (fst st)) top in
      let st1 := (called (Scandir top listing) (fst st), snd st) in
      match listing with
      | None => Some st1
      | Some (dirs, files) =>
          walk_dirs (walk fuel') top dirs (rename_in top files st1)
      end
  end.

(** [rename_files(target_dir, find_char, replace_char)] *)
Definition rename_files (fuel : nat) (target_dir : string) (w : world fs)
  : option (world fs) :=
  let d := isdir (disk w) target_dir in
  let w := called (Isdir target_dir d) w in
  if negb d then
    Some (print ("Error: Directory '" ++ target_dir ++ "' does not exist.") w)
  else
    match walk fuel target_dir (w, 0) with
    | Some (w', count) =>
        Some (print ("Finished. Renamed " ++ str_of_nat count ++ " files.") w')
    | None => None
    end.

End Renamer.

(** ** [main] *)

(** The parsed command line: [args.directory], [args.find],
    [args.replace], each [None] when not given. *)
Record namespace := Namespace {
  arg_directory : option string;
  arg_find : option string;
  arg_replace : option string
}.

(** How [main] ends: it returns, or [input] raises [EOFError]. *)
Inductive ending := Returned | EOFError.

Definition newline : string := String (ascii_of_nat 10) EmptyString.

(** The double quote character, as a string. *)
Definition dquote : string := String (ascii_of_nat 34) EmptyString.

Section Main.

Context {fs : Type} `{FileSystem fs}.

(** [input(prompt)]: the prompt is written, one line is read. *)
Definition input (prompt : string) (w : world fs) (stdin : list string)
  : world fs * list string * option string :=
  let w := World (disk w) (stdout w ++ [Prompt prompt]) (calls w) in
  match stdin with
  | [] => (w, [], None)
  | line :: rest => (w, rest, Some line)
  end.

(** Lines 45-47: quotes around the entered path are taken off. *)
Definition unquote (target_path : string) : string :=
  if (startswith target_path dquote && endswith target_path dquote)
     || (startswith target_path "'" && endswith target_path "'")
  then slice_1_m1 target_path else target_path.

(** Lines 41-49: where the target path comes from.  [Some] of the path and
    what is left of the input, [None] for [EOFError]. *)
Definition read_target (args : namespace) (w : world fs) (stdin : list string)
  : world fs * list string * option string :=
  let target_path := arg_directory args in
  let '(w, stdin, target_path) :=
    match target_path with
    | Some (String c p) => (w, stdin, Some (String c p))
    | _ =>
        let '(w, stdin, line) := input "Enter the directory to scan: " w stdin in
        (w, stdin, option_map (fun l => unquote (strip l)) line)
    end in
  (w, stdin, option_map (abspath (getcwd (disk w))) target_path).

(** Lines 51-57: a token from the command line, or else from a prompt. *)
Definition read_token (arg : option string) (prompt : string)
    (w : world fs) (stdin : list string)
  : world fs * list string * option string :=
  match arg with
  | Some t => (w, stdin, Some t)
  | None => input prompt w stdin
  end.

(** Lines 64-67: the configuration is echoed. *)
Definition echo (target_path find_char replace_char : string) (w : world fs)
  : world fs :=
  let w := print (newline ++ "Configuration:") w in
  let w := print ("  Directory: " ++ target_path) w in
  let w := print ("  Find:      '" ++ find_char ++ "'") w in
  print ("  Replace:   '" ++ replace_char ++ "'") w.

(** Lines 64-74: the echo, the question, and the run or the cancelling.
    The outer [None] is fuel run out in [rename_files]. *)
Definition proceed (fuel : nat) (target_path find_char replace_char : string)
    (w : world fs) (stdin : list string)
  : option (world fs * list string * ending) :=
  let w := echo target_path find_char replace_char w in
  match input (newline ++ "Proceed? (y/n): ") w stdin with
  | (w, stdin, None) => Some (w, stdin, EOFError)
  | (w, stdin, Some answer) =>
      let confirm := lower answer in
      if negb (confirm =? "y") then
        Some (print "Operation cancelled." w, stdin, Returned)
      else
        match rename_files find_char replace_char fuel target_path w with
        | Some w => Some (w, stdin, Returned)
        | None => None
        end
  end.

(** [main()], after [parse_args]. *)
Definition main (fuel : nat) (args : namespace) (w : world fs)
    (stdin : list string) : option (world fs * list string * ending) :=
  match read_target args w stdin with
  | (w, stdin, None) => Some (w, stdin, EOFError)
  | (w, stdin, Some target_path) =>
  match read_token (arg_find args)
          "Enter character(s) to find (e.g. _): " w stdin with
  | (w, stdin, None) => Some (w, stdin, EOFError)
  | (w, stdin, Some find_char) =>
  match read_token (arg_replace args)
          "Enter replacement character(s) (e.g. space): " w stdin with
  | (w, stdin, None) => Some (w, stdin, EOFError)
  | (w, stdin, Some replace_char) =>
      proceed fuel target_path find_char replace_char w stdin
  end end end.

End Main.

(** ** An in-memory file system

    A table from absolute path strings to what is there, enough to run the
    program on concrete trees.  Paths are looked up as written (the trees
    and the program use the paths [join] builds); there are no symbolic
    links; only files can be renamed. *)

Module MemFS.

Inductive kind := KFile | KDir.

Definition kind_eqb (a b : kind) : bool :=
  match a, b with
  | KFile, KFile | KDir, KDir => true
  | _, _ => false
  end.

Record t := Mem {
  cwd : string;
  table : list (string * kind)
}.

Definition lookup (p : string) (tbl : list (string * kind)) : option kind :=
  option_map snd (List.find (fun e => fst e =? p) tbl).

Definition is_dir (m : t) (p : string) : bool :=
  match lookup p (table m) with
  | Some KDir => true
  | _ => false
  end.

(** The name [n] with [join top n = k], when [k] is directly under [top]. *)
Definition child_name (top k : string) : option string :=
  if startswith k top then
    let rest := drop (length top) k in
    let n := if startswith rest "/" then drop 1 rest else rest in
    if negb (n =? "") && negb (contains "/" n) && (join top n =? k)
    then Some n else None
  else None.

Fixpoint children (want : kind) (top : string) (tbl : list (string * kind))
  : list string :=
  match tbl with
  | [] => []
  | (k, kd) :: tbl' =>
      match child_name top k with
      | Some n => if kind_eqb kd want then n :: children want top tbl'
                  else children want top tbl'
      | None => children want top tbl'
      end
  end.

Definition scan (m : t) (top : string) : option (list string * list string) :=
  if is_dir m top
  then Some (children KDir top (table m), children KFile top (table m))
  else None.

Definition errno (n what src dst : string) : string :=
  "[Errno " ++ n ++ "] " ++ what ++ ": '" ++ src ++ "' -> '" ++ dst ++ "'".

Definition move (m : t) (src dst : string) : t + string :=
  match lookup src (table m) with
  | None => inr (errno "2" "No such file or directory" src dst)
  | Some KDir => inr (errno "1" "Operation not permitted" src dst)
  | Some KFile =>
      if src =? dst then inl m
      else if is_dir m dst then inr (errno "21" "Is a directory" src dst)
      else if negb (is_dir m (dirname dst)) then
        inr (errno "2" "No such file or directory" src dst)
      else match child_name (dirname dst) dst with
           | None => inr (errno "20" "Not a directory" src dst)
           | Some _ =>
               inl (Mem (cwd m)
                      ((dst, KFile)
                       :: filter (fun e => negb (fst e =? src) && negb (fst e =? dst))
                            (table m)))
           end
  end.

(** Length of the longest path of a directory in the table. *)
Fixpoint deepest (tbl : list (string * kind)) : nat :=
  match tbl with
  | [] => 0
  | (k, KDir) :: tbl' => Nat.max (length k) (deepest tbl')
  | (_, KFile) :: tbl' => deepest tbl'
  end.

End MemFS.

#[export] Instance MemFS_FileSystem : FileSystem MemFS.t := {|
  isdir := MemFS.is_dir;
  islink := fun _ _ => false;
  scandir := MemFS.scan;
  rename := MemFS.move;
  getcwd := MemFS.cwd
|}.

(** ** The transformation in the words of the specification

    Every non-overlapping literal occurrence of the find token replaced by
    the replace token, scanning left to right: the leftmost occurrence is
    found, what stands before it is kept, the replace token takes its
    place, and the scan goes on after it; a name with no occurrence is
    kept whole. *)

(** Index of the leftmost occurrence of [f] in [s]. *)
Fixpoint find_first (f s : string) : option nat :=
  if startswith s f then Some 0
  else match s with
       | EmptyString => None
       | String _ s' => option_map S (find_first f s')
       end.

Inductive replaced_all (find repl : string) : string -> string -> Prop :=
| replaced_none (s : string) :
    find_first find s = None -> replaced_all find repl s s
| replaced_next (s : string) (i : nat) (t' : string) :
    find_first find s = Some i ->
    replaced_all find repl (drop (i + length find) s) t' ->
    replaced_all find repl s (take i s ++ repl ++ t').

(** ** Reading a run *)

(** The line printed for a file after its rename was tried. *)
Definition report (filename new_filename : string) (error : option string)
  : output :=
  match error with
  | None => Print ("Renamed: '" ++ filename ++ "' -> '" ++ new_filename ++ "'")
  | Some e => Print ("Error renaming '" ++ filename ++ "': " ++ e)
  end.

(** The rename the program asks for, for [filename] found in [root]. *)
Definition attempt (find_char replace_char root : string)
    (tried : string * option string) : call :=
  let (filename, error) := tried in
  Rename (join root filename)
         (join root (replace filename find_char replace_char)) error.

Definition attempt_report (find_char replace_char : string)
    (tried : string * option string) : output :=
  let (filename, error) := tried in
  report filename (replace filename find_char replace_char) error.

(** The names containing the find token, in listing order. *)
Definition candidates (find_char : string) (files : list string) : list string :=
  filter (contains find_char) files.

(** Number of renames that went through among the calls. *)
Definition renamed (cs : list call) : nat :=
  List.length (filter is_rename_ok cs).

(** A name as a directory entry has it: no separator in it. *)
Definition plain_name (n : string) : bool := negb (contains "/" n).

Definition plain_listing (c : call) : bool :=
  match c with
  | Scandir _ (Some (_, files)) => forallb plain_name files
  | _ => true
  end.

(** What a stretch of calls [cs], with the output [outs] that came with
    it, shows of the walk: every rename is of a candidate of a directory
    listed in the stretch, to the name [replace] gives, and was reported;
    every candidate of every directory listed was tried. *)
Definition traced (find_char replace_char : string)
    (cs : list call) (outs : list output) : Prop :=
  (forall src dst error, In (Rename src dst error) cs ->
     exists root dirs files filename,
       In (Scandir root (Some (dirs, files))) cs
       /\ In filename files
       /\ contains find_char filename = true
       /\ src = join root filename
       /\ dst = join root (replace filename find_char replace_char)
       /\ In (report filename (replace filename find_char replace_char) error) outs)
  /\
  (forall root dirs files filename,
     In (Scandir root (Some (dirs, files))) cs ->
     In filename files ->
     contains find_char filename = true ->
     exists error,
       In (Rename (join root filename)
                  (join root (replace filename find_char replace_char)) error) cs).

(** A file system whose directories have a height: a listed subdirectory
    is lower than the directory listed, and a rename raises no height.
    The walk then has enough fuel at the height of its starting point. *)
Class Wellfounded (fs : Type) `{FileSystem fs} := {
  height : fs -> string -> nat;
  height_scandir : forall d top dirs files sub,
    scandir d top = Some (dirs, files) -> In sub dirs ->
    height d (join top sub) < height d top;
  height_rename : forall d src dst d',
    rename d src dst = inl d' -> forall p, height d' p <= height d p
}.

(** The calls [cs], made one after the other from the disk [d], answer
    what the file system answers and leave the disk [d']: only a rename
    that goes through changes the disk. *)
Inductive replays {fs : Type} `{FileSystem fs} : fs -> list call -> fs -> Prop :=
| replays_nil (d : fs) : replays d [] d
| replays_isdir (d : fs) (p : string) (cs : list call) (d' : fs) :
    replays d cs d' -> replays d (Isdir p (isdir d p) :: cs) d'
| replays_scandir (d : fs) (top : string) (cs : list call) (d' : fs) :
    replays d cs d' -> replays d (Scandir top (scandir d top) :: cs) d'
| replays_islink (d : fs) (p : string) (cs : list call) (d' : fs) :
    replays d cs d' -> replays d (Islink p (islink d p) :: cs) d'
| replays_renamed (d : fs) (src dst : string) (d1 : fs) (cs : list call) (d' : fs) :
    rename d src dst = inl d1 ->
    replays d1 cs d' -> replays d (Rename src dst None :: cs) d'
| replays_failed (d : fs) (src dst e : string) (cs : list call) (d' : fs) :
    rename d src dst = inr e ->
    replays d cs d' -> replays d (Rename src dst (Some e) :: cs) d'.

(** [st'] is [st] after a stretch of the walk: calls and output were
    appended, the count went up by the renames that went through, the
    stretch reads as [traced] says and replays from the one disk to the
    other. *)
Definition extends {fs : Type} `{FileSystem fs} (find_char replace_char : string)
    (st st' : world fs * nat) : Prop :=
  exists cs outs,
    calls (fst st') = (calls (fst st) ++ cs)%list
    /\ stdout (fst st') = (stdout (fst st) ++ outs)%list
    /\ snd st' = snd st + renamed cs
    /\ traced find_char replace_char cs outs
    /\ replays (disk (fst st)) cs (disk (fst st')).

(** No height is raised from [st] to [st']. *)
Definition lowers {fs : Type} `{Wellfounded fs} (st st' : world fs * nat)
  : Prop :=
  forall p, height (disk (fst st')) p <= height (disk (fst st)) p.

(** ** Trees to run the program on *)

(** The tree of the example of the specification, with a nested
    directory added. *)
Definition demo : MemFS.t :=
  MemFS.Mem "/home/u"
    [("/r", MemFS.KDir); ("/r/a_b.txt", MemFS.KFile);
     ("/r/c_d.txt", MemFS.KFile); ("/r/note.txt", MemFS.KFile);
     ("/r/sub_1", MemFS.KDir); ("/r/sub_1/e_f", MemFS.KFile)].

Definition fresh {fs} (d : fs) : world fs := World d [] [].


(** A name that, once renamed, would take the place of a directory; a
    second candidate follows it in the listing. *)
Definition collide : MemFS.t :=
  MemFS.Mem "/home/u"
    [("/r", MemFS.KDir); ("/r/a_b", MemFS.KFile); ("/r/a b", MemFS.KDir);
     ("/r/c_d", MemFS.KFile)].

(** A file next to a directory that carries the start of its name. *)
Definition nested : MemFS.t :=
  MemFS.Mem "/home/u"
    [("/r", MemFS.KDir); ("/r/a", MemFS.KDir); ("/r/a_b", MemFS.KFile)].

(** One directory with one file. *)
Definition single : MemFS.t :=
  MemFS.Mem "/home/u" [("/r", MemFS.KDir); ("/r/ab", MemFS.KFile)].

(** The world a run leaves, [w] itself when the fuel ran out. *)
Definition after {fs : Type} (w : world fs) (run : option (world fs))
  : world fs :=
  match run with
  | Some w' => w'
  | None => w
  end.

(** ** The shape of a walk

    The calls of a walk from [top], in the order made: the listing of
    [top]; when it succeeds, one rename for each candidate of the listing,
    in listing order; then, for each subdirectory of the listing in
    listing order, the link test of its path and, unless it is a link,
    the calls of the walk from that path. *)
Inductive walk_shape (find_char replace_char : string)
  : string -> list call -> Prop :=
| shape_unlisted (top : string) :
    walk_shape find_char replace_char top [Scandir top None]
| shape_listed (top : string) (dirs files : list string)
    (errors : list (option string)) (below : list call) :
    List.length errors = List.length (candidates find_char files) ->
    dirs_shape find_char replace_char top dirs below ->
    walk_shape find_char replace_char top
      (Scandir top (Some (dirs, files))
         :: map (attempt find_char replace_char top)
              (combine (candidates find_char files) errors)
         ++ below)
with dirs_shape (find_char replace_char : string)
  : string -> list string -> list call -> Prop :=
| dirs_done (top : string) : dirs_shape find_char replace_char top [] []
| dirs_link (top d : string) (dirs : list string) (below : list call) :
    dirs_shape find_char replace_char top dirs below ->
    dirs_shape find_char replace_char top (d :: dirs)
      (Islink (join top d) true :: below)
| dirs_walk (top d : string) (dirs : list string) (sub below : list call) :
    walk_shape find_char replace_char (join top d) sub ->
    dirs_shape find_char replace_char top dirs below ->
    dirs_shape find_char replace_char top (d :: dirs)
      (Islink (join top d) false :: sub ++ below).

Scheme walk_shape_mut := Minimality for walk_shape Sort Prop
  with dirs_shape_mut := Minimality for dirs_shape Sort Prop.

(** Every subdirectory of every listing among [cs] had its path tested
    for a link and, when the test said no, was listed in its turn. *)
Definition descends (cs : list call) : Prop :=
  forall top dirs files d,
    In (Scandir top (Some (dirs, files))) cs ->
    In d dirs ->
    exists l, In (Islink (join top d) l) cs
              /\ (l = false -> exists r, In (Scandir (join top d) r) cs).

(** Every path listed among [cs] is [target] or a subdirectory, by its
    listing, of a directory listed among [cs], and one whose link test
    said no. *)
Definition listed_by_descent (target : string) (cs : list call) : Prop :=
  forall p r,
    In (Scandir p r) cs ->
    p = target
    \/ exists top dirs files d,
         In (Scandir top (Some (dirs, files))) cs
         /\ In d dirs
         /\ p = join top d
         /\ In (Islink p false) cs.

(** What [join] puts before a plain name: [top] with its separator. *)
Definition dir_prefix (top : string) : string :=
  if (top =? "") || endswith top sep then top else top ++ sep.

(** [p] is a path below [top]. *)
Definition under (top p : string) : bool := startswith p (dir_prefix top).

(** The paths a call names are [top] or below it; those of a rename are
    below it, the new path as well when [dst_too]. *)
Definition within (top : string) (dst_too : bool) (c : call) : bool :=
  match c with
  | Isdir p _ | Scandir p _ | Islink p _ => (p =? top) || under top p
  | Rename src dst _ => under top src && (negb dst_too || under top dst)
  end.

(** The names of a listing, directories and files, are plain. *)
Definition plain_entries (c : call) : bool :=
  match c with
  | Scandir _ (Some (dirs, files)) =>
      forallb plain_name dirs && forallb plain_name files
  | _ => true
  end.

(** No file name of a listing contains the find token. *)
Definition no_candidate (find_char : string) (c : call) : bool :=
  match c with
  | Scandir _ (Some (_, files)) =>
      forallb (fun f => negb (contains find_char f)) files
  | _ => true
  end.

(** Number of renames asked for among the calls. *)
Definition attempts (cs : list call) : nat :=
  List.length (filter is_rename cs).

(** [n] copies of [f] in a row. *)
Fixpoint copies (n : nat) (f : string) : string :=
  match n with
  | O => EmptyString
  | S k => f ++ copies k f
  end.

(** How many lines [main] reads when it gets to the end: one for each
    value the command line left out (an empty directory argument counts
    as left out), and the answer to the question. *)
Definition lines_read (args : namespace) : nat :=
  match arg_directory args with Some (String _ _) => 0 | _ => 1 end
  + match arg_find args with Some _ => 0 | None => 1 end
  + match arg_replace args with Some _ => 0 | None => 1 end
  + 1.

(** The line [o] is the report of the rename [c]: of a candidate
    [filename] of some directory [root], to the name [replace] gives. *)
Definition reported (find_char replace_char : string) (c : call) (o : output)
  : Prop :=
  exists root filename error,
    c = Rename (join root filename)
          (join root (replace filename find_char replace_char)) error
    /\ contains find_char filename = true
    /\ o = report filename (replace filename find_char replace_char) error.

(** A quote character, as a string. *)
Definition is_quote (q : string) : Prop := q = "'" \/ q = dquote.

(** ** The model on concrete inputs *)

Example replace_ex1 : replace "a_b_c.txt" "_" " " = "a b c.txt".
Proof. reflexivity. Qed.

Example replace_ex2 : replace "aaa" "aa" "b" = "ba".
Proof. reflexivity. Qed.

Example replace_ex3 : replace "ab" "" "x" = "xaxbx".
Proof. reflexivity. Qed.

Example replace_ex4 : replace "abb" "ab" "a" = "ab".
Proof. reflexivity. Qed.

Example str_ex : str_of_nat 0 = "0" /\ str_of_nat 120 = "120".
Proof. split; reflexivity. Qed.

Example strip_ex : strip "  'a b'  " = "'a b'" /\ slice_1_m1 "'a b'" = "a b".
Proof. split; reflexivity. Qed.

Example lower_ex : lower "Yes" = "yes" /\ endswith "abc" "bc" = true.
Proof. split; reflexivity. Qed.

Example join_ex :
  join "/r" "a.txt" = "/r/a.txt" /\ join "/r/" "a.txt" = "/r/a.txt"
  /\ join "/r" "/b" = "/b" /\ join "/r" "" = "/r/" /\ join "" "x" = "x".
Proof. repeat split. Qed.

Example dirname_ex :
  dirname "/r/a.txt" = "/r" /\ dirname "/r/" = "/r" /\ dirname "/a" = "/"
  /\ dirname "a" = "" /\ dirname "//a" = "//" /\ dirname "/r//a" = "/r".
Proof. repeat split. Qed.

Example normpath_ex :
  normpath "/a//b/./c/../d/" = "/a/b/d" /\ normpath "//a" = "//a"
  /\ normpath "///a" = "/a" /\ normpath "a/../.." = ".." /\ normpath "/.." = "/"
  /\ abspath "/home/u" "x/../y" = "/home/u/y" /\ abspath "/home/u" "" = "/home/u".
Proof. repeat split. Qed.

Example demo_run :
  option_map (fun w => (stdout w, MemFS.table (disk w)))
    (rename_files "_" " " 5 "/r" (fresh demo))
  = Some ([Print "Renamed: 'a_b.txt' -> 'a b.txt'";
           Print "Renamed: 'c_d.txt' -> 'c d.txt'";
           Print "Renamed: 'e_f' -> 'e f'";
           Print "Finished. Renamed 3 files."],
          [("/r/sub_1/e f", MemFS.KFile); ("/r/c d.txt", MemFS.KFile);
           ("/r/a b.txt", MemFS.KFile); ("/r", MemFS.KDir);
           ("/r/note.txt", MemFS.KFile); ("/r/sub_1", MemFS.KDir)]).
Proof. vm_compute. reflexivity. Qed.

Example not_idempotent_though_replace_lacks_find :
  contains "ab" "abb" = true /\ contains "ab" "a" = false
  /\ replace "abb" "ab" "a" = "ab"
  /\ replace (replace "abb" "ab" "a") "ab" "a" = "a".
Proof. repeat split. Qed.

Example collide_run :
  option_map (fun w => (calls w, stdout w))
    (rename_files "_" " " 8 "/r" (fresh collide))
  = Some ([Isdir "/r" true;
           Scandir "/r" (Some (["a b"], ["a_b"; "c_d"]));
           Rename "/r/a_b" "/r/a b"
             (Some "[Errno 21] Is a directory: '/r/a_b' -> '/r/a b'");
           Rename "/r/c_d" "/r/c d" None;
           Islink "/r/a b" false;
           Scandir "/r/a b" (Some ([], []))],
          [Print "Error renaming 'a_b': [Errno 21] Is a directory: '/r/a_b' -> '/r/a b'";
           Print "Renamed: 'c_d' -> 'c d'";
           Print "Finished. Renamed 1 files."]).
Proof. vm_compute. reflexivity. Qed.

(** All three values on the command line, the answer [n]: cancelled, the
    disk as it was and no call made. *)
Example main_declined :
  main 8 (Namespace (Some "/r") (Some "_") (Some " ")) (fresh demo) ["n"]
  = Some (World demo
            [Print (newline ++ "Configuration:");
             Print "  Directory: /r";
             Print "  Find:      '_'";
             Print "  Replace:   ' '";
             Prompt (newline ++ "Proceed? (y/n): ");
             Print "Operation cancelled."]
            [],
          [], Returned).
Proof. vm_compute. reflexivity. Qed.

(** Everything asked at the prompts, the path in quotes, the answer [Y]. *)
Example main_interactive :
  option_map (fun r => (calls (fst (fst r)), snd r))
    (main 8 (Namespace None None None) (fresh demo)
       [" '/r/sub_1/' "; "_"; "-"; "Y"])
  = Some ([Isdir "/r/sub_1" true;
           Scandir "/r/sub_1" (Some ([], ["e_f"]));
           Rename "/r/sub_1/e_f" "/r/sub_1/e-f" None],
          Returned).
Proof. vm_compute. reflexivity. Qed.

(** No answer to read: [input] raises. *)
Example main_end_of_input :
  option_map snd
    (main 8 (Namespace (Some "/r") (Some "_") None) (fresh demo) [])
  = Some EOFError.
Proof. reflexivity. Qed.
(** ** Facts about the string operations *)

Lemma append_nil_r (s : string) : s ++ "" = s.
Proof. induction s as [|c s IH]; simpl; [reflexivity | now rewrite IH]. Qed.

Lemma append_assoc (s t u : string) : (s ++ t) ++ u = s ++ t ++ u.
Proof. induction s as [|c s IH]; simpl; [reflexivity | now rewrite IH]. Qed.

Lemma length_append (s t : string) : length (s ++ t) = length s + length t.
Proof. induction s as [|c s IH]; simpl; [reflexivity | now rewrite IH]. Qed.

Lemma length_drop (n : nat) (s : string) : length (drop n s) = length s - n.
Proof.
  revert s; induction n as [|n IH]; intros [|c s]; simpl; auto.
Qed.

Lemma drop_app_length (u t : string) : drop (length u) (u ++ t) = t.
Proof. induction u as [|c u IH]; simpl; auto. Qed.

Lemma take_app_length (u t : string) : take (length u) (u ++ t) = u.
Proof. induction u as [|c u IH]; simpl; [reflexivity | now rewrite IH]. Qed.

Lemma startswith_app (p t : string) : startswith (p ++ t) p = true.
Proof.
  induction p as [|c p IH]; simpl; [reflexivity|].
  now rewrite Ascii.eqb_refl.
Qed.

Lemma startswith_split (s p : string) :
  startswith s p = true -> s = p ++ drop (length p) s.
Proof.
  revert s; induction p as [|a p IH]; intros s Hs; simpl in *; [reflexivity|].
  destruct s as [|b s]; [discriminate|].
  apply andb_true_iff in Hs as [Hab Hs].
  apply Ascii.eqb_eq in Hab; subst b.
  simpl. f_equal. now apply IH.
Qed.

Lemma startswith_app_r (s p t : string) :
  startswith s p = true -> startswith (s ++ t) p = true.
Proof.
  intros Hs. rewrite (startswith_split _ _ Hs), append_assoc.
  apply startswith_app.
Qed.

Lemma startswith_length (s p : string) :
  startswith s p = true -> length p <= length s.
Proof.
  intros Hs. rewrite (startswith_split _ _ Hs), length_append. lia.
Qed.

Lemma contains_hit (f t : string) : contains f (f ++ t) = true.
Proof.
  destruct (f ++ t) eqn:E; simpl; rewrite <- E, startswith_app; reflexivity.
Qed.

Lemma contains_cons (f : string) (c : ascii) (s : string) :
  contains f s = true -> contains f (String c s) = true.
Proof. intros Hs; simpl. rewrite Hs. apply orb_true_r. Qed.

Lemma contains_app_l (f u t : string) :
  contains f t = true -> contains f (u ++ t) = true.
Proof.
  intros Ht; induction u as [|c u IH]; simpl; [exact Ht|].
  simpl in IH. rewrite IH. apply orb_true_r.
Qed.

Lemma contains_spec (f s : string) :
  contains f s = true <-> exists u v, s = u ++ f ++ v.
Proof.
  split.
  - induction s as [|c s IH]; intros Hs.
    + simpl in Hs. rewrite orb_false_r in Hs.
      destruct f; [|discriminate]. now exists "", "".
    + cbn [contains] in Hs. apply orb_true_iff in Hs as [Hs|Hs].
      * exists "", (drop (length f) (String c s)). now apply startswith_split.
      * destruct (IH Hs) as (u & v & ->). now exists (String c u), v.
  - intros (u & v & ->). apply contains_app_l, contains_hit.
Qed.

Lemma contains_trans (a b c : string) :
  contains a b = true -> contains b c = true -> contains a c = true.
Proof.
  intros Hab Hbc.
  apply contains_spec in Hab as (u & v & ->).
  apply contains_spec in Hbc as (u' & v' & ->).
  apply contains_spec. exists (u' ++ u), (v ++ v').
  now rewrite !append_assoc.
Qed.

Lemma contains_length (f s : string) :
  contains f s = true -> length f <= length s.
Proof.
  intros Hs. apply contains_spec in Hs as (u & v & ->).
  rewrite !length_append. lia.
Qed.

Lemma contains_same_length (f s : string) :
  contains f s = true -> length s = length f -> s = f.
Proof.
  intros Hs Hl. apply contains_spec in Hs as (u & v & ->).
  rewrite !length_append in Hl.
  destruct u; [|simpl in Hl; lia].
  destruct v; [|simpl in Hl; lia].
  simpl. apply append_nil_r.
Qed.

Lemma contains_empty (s : string) : contains "" s = true.
Proof. now destruct s. Qed.

(** A one-character token occurs in a concatenation exactly when it occurs
    in one of the parts. *)
Lemma contains_char_app (c : ascii) (a b : string) :
  contains (String c "") (a ++ b)
  = contains (String c "") a || contains (String c "") b.
Proof.
  induction a as [|x a IH].
  - simpl. destruct b; reflexivity.
  - cbn [append contains startswith]. rewrite IH.
    now rewrite !andb_true_r, orb_assoc.
Qed.


(** ** Facts about [replace] *)

Lemma replace_nonempty (s old new : string) :
  old <> "" -> replace s old new = replace_scan old new 0 s.
Proof. unfold replace. destruct old; [contradiction | reflexivity]. Qed.

Lemma count_nonempty (s old : string) :
  old <> "" -> count s old = count_scan old 0 s.
Proof. unfold count. destruct old; [contradiction | reflexivity]. Qed.

Lemma replace_scan_skip (old new u t : string) :
  replace_scan old new (length u) (u ++ t) = replace_scan old new 0 t.
Proof. induction u as [|c u IH]; simpl; auto. Qed.

Lemma count_scan_skip (old u t : string) :
  count_scan old (length u) (u ++ t) = count_scan old 0 t.
Proof. induction u as [|c u IH]; simpl; auto. Qed.

Lemma replace_nil (old new : string) : old <> "" -> replace "" old new = "".
Proof. intros Hne. now rewrite replace_nonempty. Qed.

(** At an occurrence the replace token is emitted and the scan resumes
    after the occurrence. *)
Lemma replace_hit (old new t : string) :
  old <> "" -> replace (old ++ t) old new = new ++ replace t old new.
Proof.
  intros Hne. rewrite !replace_nonempty by exact Hne.
  destruct old as [|a o]; [contradiction|].
  cbn [append replace_scan].
  change (String a (o ++ t)) with (String a o ++ t).
  rewrite startswith_app. cbn [length]. rewrite Nat.sub_succ, Nat.sub_0_r.
  apply f_equal, replace_scan_skip.
Qed.

(** Where no occurrence starts the character is copied. *)
Lemma replace_miss (old new : string) (c : ascii) (s : string) :
  startswith (String c s) old = false ->
  replace (String c s) old new = String c (replace s old new).
Proof.
  intros Hs.
  assert (Hne : old <> "") by (intros ->; discriminate).
  rewrite !replace_nonempty by exact Hne. cbn [replace_scan]. now rewrite Hs.
Qed.

Lemma count_nil (old : string) : old <> "" -> count "" old = 0.
Proof. intros Hne. now rewrite count_nonempty. Qed.

Lemma count_hit (old t : string) :
  old <> "" -> count (old ++ t) old = S (count t old).
Proof.
  intros Hne. rewrite !count_nonempty by exact Hne.
  destruct old as [|a o]; [contradiction|].
  cbn [append count_scan].
  change (String a (o ++ t)) with (String a o ++ t).
  rewrite startswith_app. cbn [length]. rewrite Nat.sub_succ, Nat.sub_0_r.
  apply f_equal, count_scan_skip.
Qed.

Lemma count_miss (old : string) (c : ascii) (s : string) :
  startswith (String c s) old = false ->
  count (String c s) old = count s old.
Proof.
  intros Hs.
  assert (Hne : old <> "") by (intros ->; discriminate).
  rewrite !count_nonempty by exact Hne. cbn [count_scan]. now rewrite Hs.
Qed.

(** Induction along the scan: the empty string, an occurrence followed by
    a rest, a character where no occurrence starts. *)
Lemma scan_ind (old : string) (P : string -> Prop) :
  old <> "" ->
  P "" ->
  (forall t, P t -> P (old ++ t)) ->
  (forall c s, startswith (String c s) old = false -> P s -> P (String c s)) ->
  forall s, P s.
Proof.
  intros Hne H0 Hhit Hmiss s.
  remember (length s) as n eqn:En. revert s En.
  induction n as [n IH] using lt_wf_ind. intros s En.
  destruct s as [|c s]; [exact H0|].
  destruct (startswith (String c s) old) eqn:Hs.
  - rewrite (startswith_split _ _ Hs). apply Hhit.
    apply (IH (length (drop (length old) (String c s)))); [|reflexivity].
    rewrite length_drop. subst n.
    destruct old; [contradiction | simpl; lia].
  - apply Hmiss; [exact Hs|].
    apply (IH (length s)); [subst n; simpl; lia | reflexivity].
Qed.

Ltac scan_induction s old Hne :=
  pattern s; apply (scan_ind old); [exact Hne | | intros ? | intros ? ? ?]; clear s.

Lemma replace_absent (s old new : string) :
  contains old s = false -> replace s old new = s.
Proof.
  intros Hs.
  assert (Hne : old <> "") by (intros ->; now rewrite contains_empty in Hs).
  induction s as [|c s IH]; [now apply replace_nil|].
  cbn [contains] in Hs. apply orb_false_iff in Hs as [Hc Hs].
  rewrite replace_miss by exact Hc. now rewrite IH.
Qed.

Lemma interleave_empty (s : string) : interleave "" s = s.
Proof. induction s as [|c s IH]; simpl; [reflexivity | now rewrite IH]. Qed.

(** Replacing a token by itself gives the name back. *)
Lemma replace_same (s f : string) : replace s f f = s.
Proof.
  destruct (string_dec f "") as [->|Hne]; [apply interleave_empty|].
  scan_induction s f Hne; [| intros IH | intros IH].
  - now apply replace_nil.
  - rewrite replace_hit by exact Hne. now rewrite IH.
  - rewrite replace_miss by assumption. now rewrite IH.
Qed.

Lemma length_interleave (new s : string) :
  length (interleave new s) = length s + S (length s) * length new.
Proof.
  induction s as [|c s IH]; simpl; [lia|].
  rewrite length_append. simpl. rewrite IH. lia.
Qed.

(** Each replacement trades the length of the find token for that of the
    replace token. *)
Lemma length_replace (s old new : string) :
  length (replace s old new) + count s old * length old
  = length s + count s old * length new.
Proof.
  destruct (string_dec old "") as [->|Hne].
  - cbn [replace count]. rewrite length_interleave. simpl. lia.
  - scan_induction s old Hne; [| intros IH | intros IH].
    + rewrite replace_nil, count_nil by exact Hne. reflexivity.
    + rewrite replace_hit, count_hit by exact Hne.
      rewrite !length_append. lia.
    + rewrite replace_miss, count_miss by assumption. simpl. lia.
Qed.

Lemma count_pos (s old : string) :
  contains old s = true -> 0 < count s old.
Proof.
  destruct (string_dec old "") as [->|Hne]; [intros _; simpl; lia|].
  scan_induction s old Hne; [| intros IH | intros IH].
  - simpl. rewrite orb_false_r. destruct old; [contradiction | discriminate].
  - intros _. rewrite count_hit by exact Hne. lia.
  - intros Hs. cbn [contains] in Hs.
    rewrite count_miss by assumption.
    apply IH. apply orb_true_iff in Hs as [Hs|Hs]; [congruence | exact Hs].
Qed.

(** The new name of a candidate holds the replace token. *)
Lemma contains_replace (s old new : string) :
  contains old s = true -> contains new (replace s old new) = true.
Proof.
  destruct (string_dec old "") as [->|Hne].
  - intros _. cbn [replace]. destruct s; cbn [interleave].
    + rewrite <- (append_nil_r new) at 2. apply contains_hit.
    + apply contains_hit.
  - scan_induction s old Hne; [| intros IH | intros IH].
    + simpl. rewrite orb_false_r. destruct old; [contradiction | discriminate].
    + intros _. rewrite replace_hit by exact Hne. apply contains_hit.
    + intros Hs. cbn [contains] in Hs.
      rewrite replace_miss by assumption. apply contains_cons, IH.
      apply orb_true_iff in Hs as [Hs|Hs]; [congruence | exact Hs].
Qed.

(** No separator in the name and none in the replace token: none in the
    new name. *)
Lemma replace_no_sep (s old new : string) :
  contains "/" s = false -> contains "/" new = false ->
  contains "/" (replace s old new) = false.
Proof.
  intros Hs Hn.
  destruct (string_dec old "") as [->|Hne].
  - cbn [replace]. induction s as [|c s IH]; [exact Hn|].
    cbn [interleave]. rewrite contains_char_app, Hn.
    change (String c (interleave new s)) with (String c "" ++ interleave new s).
    change (String c s) with (String c "" ++ s) in Hs.
    rewrite contains_char_app in *.
    apply orb_false_iff in Hs as [Hc Hs]. rewrite Hc. now apply IH.
  - revert Hs. scan_induction s old Hne; [| intros IH | intros IH].
    + intros _. now rewrite replace_nil.
    + intros Hs. rewrite replace_hit by exact Hne.
      rewrite !contains_char_app in *.
      apply orb_false_iff in Hs as [_ Hs]. now rewrite Hn, IH.
    + intros Hs. rewrite replace_miss by assumption.
      match goal with |- context [String ?c (replace ?s old new)] =>
        change (String c (replace s old new)) with (String c "" ++ replace s old new);
        change (String c s) with (String c "" ++ s) in Hs
      end.
      rewrite contains_char_app in *.
      apply orb_false_iff in Hs as [Hd Hs]. now rewrite Hd, IH.
Qed.

(** ** The leftmost occurrence *)

Lemma find_first_none (f s : string) :
  find_first f s = None <-> contains f s = false.
Proof.
  induction s as [|c s IH]; cbn [find_first contains].
  - destruct (startswith "" f); simpl; split; congruence.
  - destruct (startswith (String c s) f); simpl; [split; congruence|].
    rewrite <- IH. destruct (find_first f s); simpl; split; congruence.
Qed.

Lemma find_first_bound (f s : string) (i : nat) :
  find_first f s = Some i -> i + length f <= length s.
Proof.
  revert i; induction s as [|c s IH]; intros i; cbn [find_first].
  - destruct (startswith "" f) eqn:E; [|discriminate].
    intros [= <-]. apply startswith_length in E. simpl in *. lia.
  - destruct (startswith (String c s) f) eqn:E.
    + intros [= <-]. apply startswith_length in E. simpl in *. lia.
    + destruct (find_first f s) as [j|]; [|discriminate].
      intros [= <-]. specialize (IH j eq_refl). simpl. lia.
Qed.

(** [replace] goes from one leftmost occurrence to the next. *)
Lemma replace_at_first (s old new : string) (i : nat) :
  old <> "" -> find_first old s = Some i ->
  replace s old new
  = take i s ++ new ++ replace (drop (i + length old) s) old new.
Proof.
  intros Hne. revert i; induction s as [|c s IH]; intros i; cbn [find_first].
  - destruct (startswith "" old) eqn:E; [|discriminate].
    destruct old; [contradiction | discriminate].
  - destruct (startswith (String c s) old) eqn:E.
    + intros [= <-]. cbn [take Nat.add append].
      rewrite (startswith_split _ _ E) at 1.
      now rewrite replace_hit.
    + destruct (find_first old s) as [j|]; [|discriminate].
      intros [= <-]. rewrite replace_miss by exact E.
      rewrite (IH j eq_refl). reflexivity.
Qed.

(** ** The loop over the files of one directory *)

Section RenamerFacts.

Context {fs : Type} `{FileSystem fs}.
Variables fc rc : string.

Lemma rename_one_skip (root : string) (st : world fs * nat) (filename : string) :
  contains fc filename = false -> rename_one fc rc root st filename = st.
Proof. intros Hc. unfold rename_one. destruct st. now rewrite Hc. Qed.

(** A candidate costs one [rename]; the outcome decides the line printed,
    the count and the disk, nothing else. *)
Lemma rename_one_candidate (root : string) (w : world fs) (n : nat)
    (filename : string) :
  contains fc filename = true ->
  exists d' error,
    rename_one fc rc root (w, n) filename
    = (World d' (stdout w ++ [attempt_report fc rc (filename, error)])
             (calls w ++ [attempt fc rc root (filename, error)]),
       n + renamed [attempt fc rc root (filename, error)])
    /\ match error with
       | None =>
           rename (disk w) (join root filename)
             (join root (replace filename fc rc)) = inl d'
       | Some e =>
           rename (disk w) (join root filename)
             (join root (replace filename fc rc)) = inr e
           /\ d' = disk w
       end.
Proof.
  intros Hc. unfold rename_one. rewrite Hc.
  destruct (rename (disk w) _ _) as [d'|e] eqn:E.
  - exists d', None. split; [|reflexivity].
    unfold print, called; cbn. now rewrite Nat.add_1_r.
  - exists (disk w), (Some e). split; [|now split].
    unfold print, called; cbn. now rewrite Nat.add_0_r.
Qed.

Lemma renamed_app (a b : list call) : renamed (a ++ b) = renamed a + renamed b.
Proof. unfold renamed. now rewrite filter_app, List.length_app. Qed.

Lemma renamed_cons (c : call) (l : list call) :
  renamed (c :: l) = renamed [c] + renamed l.
Proof. apply (renamed_app [c] l). Qed.

(** The loop tries the candidates of the listing, all of them and in
    order, whatever each rename answers. *)
Lemma rename_in_attempts (root : string) (files : list string)
    (w : world fs) (n : nat) :
  exists (errors : list (option string)) (w' : world fs),
    let tried := combine (candidates fc files) errors in
    List.length errors = List.length (candidates fc files)
    /\ rename_in fc rc root files (w, n)
       = (w', n + renamed (map (attempt fc rc root) tried))
    /\ calls w' = (calls w ++ map (attempt fc rc root) tried)%list
    /\ stdout w' = (stdout w ++ map (attempt_report fc rc) tried)%list
    /\ replays (disk w) (map (attempt fc rc root) tried) (disk w').
Proof.
  revert w n. induction files as [|f files IH]; intros w n.
  - exists [], w. cbn. rewrite !app_nil_r, Nat.add_0_r.
    auto using replays_nil.
  - unfold rename_in. cbn [fold_left candidates filter].
    destruct (contains fc f) eqn:Hc.
    + destruct (rename_one_candidate root w n f Hc) as (d' & e & -> & Hos).
      destruct (IH (World d' (stdout w ++ [attempt_report fc rc (f, e)])
                      (calls w ++ [attempt fc rc root (f, e)]))
                   (n + renamed [attempt fc rc root (f, e)]))
        as (errors & w' & Hlen & Hrun & Hcalls & Hout & Hrep).
      exists (e :: errors), w'. cbn [combine map List.length].
      unfold rename_in in Hrun. cbn [calls stdout disk] in Hcalls, Hout, Hrep.
      fold (candidates fc files).
      split; [now rewrite Hlen|]. split; [|split; [|split]].
      * rewrite Hrun. f_equal.
        rewrite (renamed_cons _ (map _ _)). lia.
      * now rewrite Hcalls, <- app_assoc.
      * now rewrite Hout, <- app_assoc.
      * cbn [attempt]. destruct e as [e|].
        -- destruct Hos as [Hos ->]. now apply replays_failed.
        -- now apply (replays_renamed _ _ _ d').
    + rewrite (rename_one_skip root (w, n) f Hc). apply IH.
Qed.

(** *** Stretches of a run *)

Lemma in_combine_left {A B : Type} (a : A) (l : list A) (l' : list B) :
  In a l -> List.length l' = List.length l -> exists b, In (a, b) (combine l l').
Proof.
  revert l'; induction l as [|x l IH]; intros l' Ha Hl; [contradiction|].
  destruct l' as [|y l']; [discriminate|].
  destruct Ha as [->|Ha].
  - exists y. now left.
  - destruct (IH l' Ha) as [b Hb]; [now injection Hl|].
    exists b. now right.
Qed.

Lemma replays_app (d d1 d2 : fs) (a b : list call) :
  replays d a d1 -> replays d1 b d2 -> replays d (a ++ b) d2.
Proof.
  intros Ha Hb. induction Ha; cbn [app]; eauto using @replays.
Qed.

Lemma traced_nil : traced fc rc [] [].
Proof. split; intros; contradiction. Qed.

Lemma traced_app (a b : list call) (oa ob : list output) :
  traced fc rc a oa -> traced fc rc b ob -> traced fc rc (a ++ b) (oa ++ ob).
Proof.
  intros [Ha1 Ha2] [Hb1 Hb2]. split.
  - intros src dst e Hin. apply in_app_or in Hin as [Hin|Hin].
    + destruct (Ha1 _ _ _ Hin) as (root & dirs & files & f & H1 & H2 & H3 & H4 & H5 & H6).
      exists root, dirs, files, f. repeat split; auto using in_or_app.
    + destruct (Hb1 _ _ _ Hin) as (root & dirs & files & f & H1 & H2 & H3 & H4 & H5 & H6).
      exists root, dirs, files, f. repeat split; auto using in_or_app.
  - intros root dirs files f Hin Hf Hc. apply in_app_or in Hin as [Hin|Hin].
    + destruct (Ha2 _ _ _ _ Hin Hf Hc) as [e He]. exists e. auto using in_or_app.
    + destruct (Hb2 _ _ _ _ Hin Hf Hc) as [e He]. exists e. auto using in_or_app.
Qed.

Lemma traced_quiet (c : call) :
  is_rename c = false ->
  match c with Scandir _ (Some _) => False | _ => True end ->
  traced fc rc [c] [].
Proof.
  intros Hr Hs. split.
  - intros src dst e [->|[]]. discriminate.
  - intros root dirs files f [->|[]]. contradiction.
Qed.

(** One directory: its listing, then the attempts on its candidates. *)
Lemma traced_visit (top : string) (dirs files : list string)
    (errors : list (option string)) :
  List.length errors = List.length (candidates fc files) ->
  traced fc rc
    (Scandir top (Some (dirs, files))
       :: map (attempt fc rc top) (combine (candidates fc files) errors))
    (map (attempt_report fc rc) (combine (candidates fc files) errors)).
Proof.
  intros Hlen. split.
  - intros src dst e [Hin|Hin]; [discriminate|].
    apply in_map_iff in Hin as ([f e'] & Heq & Hin).
    cbn in Heq. injection Heq as Hs Hd He. subst src dst e.
    exists top, dirs, files, f.
    pose proof (in_combine_l _ _ _ _ Hin) as Hf.
    apply filter_In in Hf as [Hf Hc].
    repeat split; auto; [now left|].
    apply in_map_iff. now exists (f, e').
  - intros root dirs' files' f [Hin|Hin] Hf Hc.
    + injection Hin as Hr Hd Hfs. subst root dirs' files'.
      destruct (in_combine_left f (candidates fc files) errors) as [e He];
        [now apply filter_In | exact Hlen |].
      exists e. right. apply in_map_iff. now exists (f, e).
    + apply in_map_iff in Hin as ([g e'] & Heq & _). discriminate.
Qed.

Lemma extends_refl (st : world fs * nat) : extends fc rc st st.
Proof.
  exists [], []. rewrite !app_nil_r. cbn. rewrite Nat.add_0_r.
  refine (conj eq_refl (conj eq_refl (conj eq_refl (conj _ _)))).
  - apply traced_nil.
  - apply replays_nil.
Qed.

Lemma extends_trans (a b c : world fs * nat) :
  extends fc rc a b -> extends fc rc b c -> extends fc rc a c.
Proof.
  intros (cs & outs & H1 & H2 & H3 & H4 & H5)
         (cs' & outs' & H1' & H2' & H3' & H4' & H5').
  exists (cs ++ cs')%list, (outs ++ outs')%list.
  rewrite H1', H1, H2', H2, H3', H3, renamed_app, <- !app_assoc.
  refine (conj eq_refl (conj eq_refl (conj _ (conj _ _)))); [lia| |].
  - now apply traced_app.
  - now apply (replays_app _ (disk (fst b))).
Qed.

Lemma extends_called (c : call) (w : world fs) (n : nat) :
  is_rename c = false ->
  match c with Scandir _ (Some _) => False | _ => True end ->
  replays (disk w) [c] (disk w) ->
  extends fc rc (w, n) (called c w, n).
Proof.
  intros Hr Hs Hrep. exists [c], []. cbn. rewrite app_nil_r.
  refine (conj eq_refl (conj eq_refl (conj _ (conj _ Hrep))));
    [|now apply traced_quiet].
  unfold renamed. cbn. destruct c; try discriminate; cbn; lia.
Qed.

(** The visit of one directory: listing and loop. *)
Lemma extends_visit (top : string) (dirs files : list string)
    (w : world fs) (n : nat) :
  scandir (disk w) top = Some (dirs, files) ->
  extends fc rc (w, n)
    (rename_in fc rc top files
       (called (Scandir top (Some (dirs, files))) w, n)).
Proof.
  intros Hscan.
  destruct (rename_in_attempts top files
              (called (Scandir top (Some (dirs, files))) w) n)
    as (errors & w' & Hlen & -> & Hcalls & Hout & Hrep).
  exists (Scandir top (Some (dirs, files))
            :: map (attempt fc rc top) (combine (candidates fc files) errors)),
         (map (attempt_report fc rc) (combine (candidates fc files) errors)).
  cbn [fst snd calls stdout disk called] in *.
  rewrite Hcalls, Hout, <- app_assoc.
  refine (conj eq_refl (conj eq_refl (conj _ (conj _ _)))).
  - now rewrite (renamed_cons (Scandir _ _)).
  - now apply traced_visit.
  - rewrite <- Hscan. now apply replays_scandir.
Qed.

Lemma walk_dirs_extends
    (rec : string -> world fs * nat -> option (world fs * nat))
    (top : string) (dirs : list string) :
  (forall p st st', rec p st = Some st' -> extends fc rc st st') ->
  forall st st', walk_dirs rec top dirs st = Some st' -> extends fc rc st st'.
Proof.
  intros Hrec. induction dirs as [|d dirs IH]; intros [w n] st'; cbn.
  - intros [= <-]. apply extends_refl.
  - set (l := islink (disk w) (join top d)).
    assert (Hl : extends fc rc (w, n) (called (Islink (join top d) l) w, n))
      by (apply extends_called; auto; apply replays_islink, replays_nil).
    destruct l.
    + intros Hw. eapply extends_trans; [exact Hl | now apply IH].
    + destruct (rec _ _) as [st''|] eqn:E; [|discriminate].
      intros Hw. eapply extends_trans; [exact Hl|].
      eapply extends_trans; [now apply (Hrec _ _ _ E) | now apply IH].
Qed.

(** Whatever the fuel, a walk that returns has made a traced stretch. *)
Lemma walk_extends (fuel : nat) (top : string) (st st' : world fs * nat) :
  walk fc rc fuel top st = Some st' -> extends fc rc st st'.
Proof.
  revert top st st'. induction fuel as [|fuel IH]; intros top [w n] st';
    cbn [walk]; [discriminate|].
  cbn [fst snd].
  destruct (scandir (disk w) top) as [[dirs files]|] eqn:E.
  - intros Hw.
    eapply extends_trans; [apply (extends_visit top dirs files _ _ E)|].
    eapply walk_dirs_extends; [|exact Hw]. exact IH.
  - intros [= <-]. apply extends_called; auto.
    rewrite <- E. apply replays_scandir, replays_nil.
Qed.

End RenamerFacts.

(** ** The walk returns *)

Section Totality.

Context {fs : Type} `{Wellfounded fs}.
Variables fc rc : string.

Lemma lowers_refl (st : world fs * nat) : lowers st st.
Proof. intros p. lia. Qed.

Lemma lowers_trans (a b c : world fs * nat) :
  lowers a b -> lowers b c -> lowers a c.
Proof. intros Hab Hbc p. specialize (Hab p). specialize (Hbc p). lia. Qed.

Lemma rename_one_lowers (root : string) (st : world fs * nat) (f : string) :
  lowers st (rename_one fc rc root st f).
Proof.
  destruct st as [w n]. unfold rename_one.
  destruct (contains fc f); [|apply lowers_refl].
  destruct (rename (disk w) _ _) as [d'|e] eqn:E; intros p; cbn.
  - now apply (height_rename _ _ _ _ E).
  - lia.
Qed.

Lemma rename_in_lowers (root : string) (files : list string)
    (st : world fs * nat) :
  lowers st (rename_in fc rc root files st).
Proof.
  revert st. induction files as [|f files IH]; intros st; [apply lowers_refl|].
  unfold rename_in; cbn [fold_left].
  eapply lowers_trans; [apply rename_one_lowers | apply IH].
Qed.

Lemma walk_dirs_total
    (rec : string -> world fs * nat -> option (world fs * nat))
    (bound : nat) (top : string) (dirs : list string) :
  (forall p st, height (disk (fst st)) p < bound ->
     exists st', rec p st = Some st' /\ lowers st st') ->
  forall st,
    (forall d, In d dirs -> height (disk (fst st)) (join top d) < bound) ->
    exists st', walk_dirs rec top dirs st = Some st' /\ lowers st st'.
Proof.
  intros Hrec. induction dirs as [|d dirs IH]; intros [w n] Hd; cbn.
  - eexists; split; [reflexivity | apply lowers_refl].
  - destruct (islink (disk w) (join top d)).
    + apply (IH (called _ w, n)). intros d' Hin. apply Hd. now right.
    + destruct (Hrec (join top d) (called (Islink (join top d) false) w, n))
        as (st1 & -> & H1); [apply Hd; now left|].
      destruct (IH st1) as (st2 & -> & H2).
      * intros d' Hin. specialize (H1 (join top d')).
        specialize (Hd d' (or_intror Hin)). cbn in *. lia.
      * eexists; split; [reflexivity|]. intros p.
        specialize (H1 p). specialize (H2 p). cbn in *. lia.
Qed.

(** Fuel above the height of the starting point is enough. *)
Lemma walk_total (fuel : nat) (top : string) (st : world fs * nat) :
  height (disk (fst st)) top < fuel ->
  exists st', walk fc rc fuel top st = Some st' /\ lowers st st'.
Proof.
  revert top st. induction fuel as [|fuel IH]; intros top [w n] Hh; [lia|].
  cbn [walk fst snd] in *.
  destruct (scandir (disk w) top) as [[dirs files]|] eqn:E.
  - pose proof (rename_in_lowers top files
                  (called (Scandir top (Some (dirs, files))) w, n)) as Hlow.
    destruct (walk_dirs_total (walk fc rc fuel) fuel top dirs IH
                (rename_in fc rc top files
                   (called (Scandir top (Some (dirs, files))) w, n)))
      as (st' & -> & Hst').
    + intros d Hin. specialize (Hlow (join top d)).
      pose proof (height_scandir _ _ _ _ _ E Hin). cbn in *. lia.
    + eexists; split; [reflexivity|]. intros p.
      specialize (Hlow p). specialize (Hst' p). cbn in *. lia.
  - eexists; split; [reflexivity|]. intros p. cbn. lia.
Qed.

End Totality.

(** ** The in-memory file system is well founded *)

Lemma startswith_contains (f s : string) :
  startswith s f = true -> contains f s = true.
Proof. intros Hs. destruct s; simpl; now rewrite Hs. Qed.

(** Joining a plain name makes the path longer. *)
Lemma join_plain_longer (top n : string) :
  n <> "" -> contains "/" n = false -> length top < length (join top n).
Proof.
  intros Hne Hp. unfold join.
  destruct (startswith n sep) eqn:E.
  - apply startswith_contains in E. unfold sep in E. congruence.
  - assert (0 < length n) by (destruct n; [contradiction | simpl; lia]).
    destruct ((top =? "") || endswith top sep);
      rewrite ?length_append; simpl; lia.
Qed.

Lemma child_name_sound (top k n : string) :
  MemFS.child_name top k = Some n ->
  n <> "" /\ contains "/" n = false /\ join top n = k.
Proof.
  unfold MemFS.child_name.
  destruct (startswith k top); [|discriminate].
  set (m := if startswith _ "/" then _ else _).
  destruct (negb (m =? "") && negb (contains "/" m) && (join top m =? k)) eqn:E;
    [|discriminate].
  intros [= <-].
  apply andb_true_iff in E as [E E3]. apply andb_true_iff in E as [E1 E2].
  apply negb_true_iff in E1, E2.
  apply String.eqb_neq in E1. apply String.eqb_eq in E3. auto.
Qed.

Lemma children_sound (want : MemFS.kind) (top : string)
    (tbl : list (string * MemFS.kind)) (n : string) :
  In n (MemFS.children want top tbl) ->
  exists k, In (k, want) tbl /\ MemFS.child_name top k = Some n.
Proof.
  induction tbl as [|[k kd] tbl IH]; cbn; [contradiction|].
  destruct (MemFS.child_name top k) as [m|] eqn:E.
  - destruct (MemFS.kind_eqb kd want) eqn:K.
    + intros [<-|Hin].
      * exists k. split; [left|exact E].
        destruct kd, want; try discriminate; reflexivity.
      * destruct (IH Hin) as (k' & H1 & H2). exists k'. auto.
    + intros Hin. destruct (IH Hin) as (k' & H1 & H2). exists k'. auto.
  - intros Hin. destruct (IH Hin) as (k' & H1 & H2). exists k'. auto.
Qed.

Lemma deepest_ge (k : string) (tbl : list (string * MemFS.kind)) :
  In (k, MemFS.KDir) tbl -> length k <= MemFS.deepest tbl.
Proof.
  induction tbl as [|[k' kd] tbl IH]; cbn; [contradiction|].
  intros [[= -> ->]|Hin].
  - lia.
  - specialize (IH Hin). destruct kd; lia.
Qed.

Lemma deepest_filter (p : string * MemFS.kind -> bool)
    (tbl : list (string * MemFS.kind)) :
  MemFS.deepest (filter p tbl) <= MemFS.deepest tbl.
Proof.
  induction tbl as [|[k kd] tbl IH]; cbn; [lia|].
  destruct (p (k, kd)); cbn; destruct kd; lia.
Qed.

Lemma memfs_height_scandir (m : MemFS.t) (top : string)
    (dirs files : list string) (sub : string) :
  MemFS.scan m top = Some (dirs, files) -> In sub dirs ->
  S (MemFS.deepest (MemFS.table m)) - length (join top sub)
  < S (MemFS.deepest (MemFS.table m)) - length top.
Proof.
  unfold MemFS.scan. destruct (MemFS.is_dir m top); [|discriminate].
  intros [= <- <-] Hin.
  apply children_sound in Hin as (k & Hk & Hc).
  apply child_name_sound in Hc as (Hne & Hp & <-).
  apply deepest_ge in Hk.
  pose proof (join_plain_longer top sub Hne Hp). lia.
Qed.

Lemma memfs_height_rename (m : MemFS.t) (src dst : string) (m' : MemFS.t) :
  MemFS.move m src dst = inl m' ->
  forall p : string,
    S (MemFS.deepest (MemFS.table m')) - length p
    <= S (MemFS.deepest (MemFS.table m)) - length p.
Proof.
  unfold MemFS.move.
  destruct (MemFS.lookup src (MemFS.table m)) as [[|]|]; try discriminate.
  destruct (src =? dst); [intros [= <-] p; lia|].
  destruct (MemFS.is_dir m dst); [discriminate|].
  destruct (negb (MemFS.is_dir m (dirname dst))); [discriminate|].
  destruct (MemFS.child_name (dirname dst) dst); [|discriminate].
  intros [= <-] p. cbn [MemFS.table MemFS.deepest].
  pose proof (deepest_filter
                (fun e => negb (fst e =? src) && negb (fst e =? dst))
                (MemFS.table m)).
  lia.
Qed.

#[export] Instance MemFS_Wellfounded : Wellfounded MemFS.t := {|
  height := fun m top => S (MemFS.deepest (MemFS.table m)) - length top;
  height_scandir := memfs_height_scandir;
  height_rename := memfs_height_rename
|}.

(** ** Paths *)

Lemma rfind_sep_succ_le (p : string) : rfind_sep_succ p <= length p.
Proof.
  induction p as [|c p IH]; simpl; [lia|].
  destruct (rfind_sep_succ p); [destruct (Ascii.eqb c "/"); lia | lia].
Qed.

Lemma rfind_sep_succ_plain (b : string) :
  contains "/" b = false -> rfind_sep_succ b = 0.
Proof.
  induction b as [|c b IH]; [reflexivity|].
  cbn [contains startswith]. rewrite andb_true_r.
  intros Hb. apply orb_false_iff in Hb as [Hc Hb].
  cbn [rfind_sep_succ]. rewrite (IH Hb).
  rewrite Ascii.eqb_sym, Hc. reflexivity.
Qed.

(** A plain name at the end of a path moves no separator. *)
Lemma rfind_sep_succ_app_plain (h b : string) :
  contains "/" b = false -> rfind_sep_succ (h ++ b) = rfind_sep_succ h.
Proof.
  intros Hb. induction h as [|c h IH]; cbn [append rfind_sep_succ].
  - now apply rfind_sep_succ_plain.
  - now rewrite IH.
Qed.

Lemma take_app_le (n : nat) (h b : string) :
  n <= length h -> take n (h ++ b) = take n h.
Proof.
  revert h; induction n as [|n IH]; intros h Hn; [reflexivity|].
  destruct h as [|c h]; [simpl in Hn; lia|].
  cbn [append take]. rewrite IH; [reflexivity | simpl in Hn; lia].
Qed.

Lemma dirname_app_plain (h b : string) :
  contains "/" b = false -> dirname (h ++ b) = dirname h.
Proof.
  intros Hb. unfold dirname.
  rewrite (rfind_sep_succ_app_plain h b Hb).
  now rewrite (take_app_le _ h b (rfind_sep_succ_le h)).
Qed.

(** What [join] puts before a plain name. *)
Lemma join_plain (root b : string) :
  contains "/" b = false ->
  join root b
  = (if (root =? "") || endswith root sep then root else root ++ sep) ++ b.
Proof.
  intros Hb. unfold join.
  destruct (startswith b sep) eqn:E.
  - apply startswith_contains in E. unfold sep in E. congruence.
  - destruct ((root =? "") || endswith root sep); [reflexivity|].
    now rewrite append_assoc.
Qed.

(** Two plain names joined to the same directory have the same parent. *)
Lemma dirname_join_plain (root b b' : string) :
  contains "/" b = false -> contains "/" b' = false ->
  dirname (join root b) = dirname (join root b').
Proof.
  intros Hb Hb'. rewrite !join_plain by assumption.
  now rewrite !dirname_app_plain.
Qed.



Lemma endswith_app (s q : string) : endswith (s ++ q) q = true.
Proof.
  unfold endswith. rewrite length_append.
  replace (length s + length q - length q) with (length s) by lia.
  rewrite drop_app_length, String.eqb_refl.
  apply andb_true_iff; split; [apply Nat.leb_le; lia | reflexivity].
Qed.

Lemma join_absolute (cwd p : string) :
  isabs cwd = true -> isabs (join cwd p) = true.
Proof.
  unfold isabs, join. intros Hc.
  destruct (startswith p sep) eqn:E; [exact E|].
  destruct ((cwd =? "") || endswith cwd sep); now apply startswith_app_r.
Qed.

Lemma normpath_absolute (p : string) :
  isabs p = true -> isabs (normpath p) = true.
Proof.
  unfold isabs, normpath. intros Hp. rewrite Hp.
  destruct (p =? "") eqn:E.
  - apply String.eqb_eq in E. subst p. discriminate.
  - destruct (startswith p "//" && negb (startswith p "///")); reflexivity.
Qed.

(** [abspath] answers an absolute path when the working directory is
    one. *)
Lemma abspath_absolute (cwd p : string) :
  isabs cwd = true -> isabs (abspath cwd p) = true.
Proof.
  intros Hc. unfold abspath. apply normpath_absolute.
  destruct (startswith p "/") eqn:E; [exact E | now apply join_absolute].
Qed.

(** ** The answer to the confirmation *)

Lemma lower_char_y (c : ascii) :
  lower_char c = "y"%char -> c = "y"%char \/ c = "Y"%char.
Proof.
  destruct c as [[] [] [] [] [] [] [] []]; vm_compute; intros E;
    try discriminate E; auto.
Qed.

Lemma lower_is_y (answer : string) :
  lower answer = "y" <-> answer = "y" \/ answer = "Y".
Proof.
  split.
  - destruct answer as [|c [|c' rest]]; cbn; try discriminate.
    intros [= E]. destruct (lower_char_y c E); subst; auto.
  - intros [->| ->]; reflexivity.
Qed.

Lemma confirm_decides (answer : string) :
  (lower answer =? "y") = (answer =? "y") || (answer =? "Y").
Proof.
  destruct (lower answer =? "y") eqn:E.
  - apply String.eqb_eq, lower_is_y in E as [->| ->]; reflexivity.
  - symmetry. apply orb_false_iff. split; apply String.eqb_neq; intros ->;
      discriminate.
Qed.

(** ** Quotes around the entered path *)

Lemma slice_quoted (q : ascii) (body : string) :
  slice_1_m1 (String q (body ++ String q "")) = body.
Proof.
  unfold slice_1_m1. cbn [length drop]. rewrite length_append. cbn [length].
  replace (S (length body + 1) - 2) with (length body) by lia.
  apply take_app_length.
Qed.

Lemma unquote_quoted (q : ascii) (body : string) :
  q = "'"%char \/ String q "" = dquote ->
  unquote (String q (body ++ String q "")) = body.
Proof.
  intros Hq. unfold unquote.
  assert (He : endswith (String q (body ++ String q "")) (String q "") = true)
    by apply (endswith_app (String q body) (String q "")).
  assert (Hs : startswith (String q (body ++ String q "")) (String q "") = true)
    by (cbn; now rewrite Ascii.eqb_refl).
  destruct Hq as [->|Hq].
  - rewrite Hs, He, orb_true_r. apply slice_quoted.
  - rewrite <- Hq, Hs, He. cbn [andb orb]. apply slice_quoted.
Qed.

(** ** Runs of [rename_files] *)

Section RunFacts.

Context {fs : Type} `{FileSystem fs}.
Variables fc rc : string.

Lemma rename_files_missing (fuel : nat) (target : string) (w : world fs) :
  isdir (disk w) target = false ->
  rename_files fc rc fuel target w
  = Some (World (disk w)
            (stdout w
             ++ [Print ("Error: Directory '" ++ target ++ "' does not exist.")])
            (calls w ++ [Isdir target false])).
Proof. intros Hd. unfold rename_files. now rewrite Hd. Qed.

Lemma rename_files_walked (fuel : nat) (target : string) (w w' : world fs) :
  isdir (disk w) target = true ->
  rename_files fc rc fuel target w = Some w' ->
  exists cs outs,
    calls w' = (calls w ++ Isdir target true :: cs)%list
    /\ stdout w'
       = (stdout w ++ outs
          ++ [Print ("Finished. Renamed " ++ str_of_nat (renamed cs) ++ " files.")])%list
    /\ traced fc rc cs outs
    /\ replays (disk w) cs (disk w').
Proof.
  intros Hd. unfold rename_files. rewrite Hd. cbn [negb].
  destruct (walk fc rc fuel target _) as [[w1 n]|] eqn:E; [|discriminate].
  intros [= <-].
  apply walk_extends in E as (cs & outs & H1 & H2 & H3 & H4 & H5).
  cbn [fst snd calls stdout disk called] in *.
  exists cs, outs. unfold print. cbn [calls stdout disk].
  rewrite H1, H2, H3, <- !app_assoc. auto.
Qed.


End RunFacts.

(** ** [replace] and the scan of the specification *)

Lemma replaced_all_replace (fc rc s : string) :
  fc <> "" -> replaced_all fc rc s (replace s fc rc).
Proof.
  intros Hne. remember (length s) as n eqn:En. revert s En.
  induction n as [n IH] using lt_wf_ind. intros s En.
  destruct (find_first fc s) as [i|] eqn:E.
  - rewrite (replace_at_first s fc rc i Hne E).
    apply replaced_next; [exact E|].
    apply (IH (length (drop (i + length fc) s))); [|reflexivity].
    rewrite length_drop. apply find_first_bound in E.
    destruct fc; [contradiction | simpl in *; lia].
  - rewrite replace_absent by now apply find_first_none.
    now apply replaced_none.
Qed.

Lemma replaced_all_unique (fc rc s t : string) :
  fc <> "" -> replaced_all fc rc s t -> t = replace s fc rc.
Proof.
  intros Hne Hr. induction Hr as [s E|s i t' E _ IH].
  - symmetry. apply replace_absent. now apply find_first_none.
  - rewrite (replace_at_first s fc rc i Hne E). now rewrite IH.
Qed.

(** ** The prompts leave the file system alone *)

Section PromptFacts.

Context {fs : Type} `{FileSystem fs}.

Lemma input_quiet (prompt : string) (w w' : world fs)
    (stdin stdin' : list string) (line : option string) :
  input prompt w stdin = (w', stdin', line) ->
  disk w' = disk w /\ calls w' = calls w.
Proof. unfold input. destruct stdin; intros [= <- _ _]; now split. Qed.

Lemma read_token_quiet (arg : option string) (prompt : string)
    (w w' : world fs) (stdin stdin' : list string) (token : option string) :
  read_token arg prompt w stdin = (w', stdin', token) ->
  disk w' = disk w /\ calls w' = calls w.
Proof.
  unfold read_token. destruct arg.
  - intros [= <- _ _]; now split.
  - apply input_quiet.
Qed.

Lemma read_target_quiet (args : namespace) (w w' : world fs)
    (stdin stdin' : list string) (target : option string) :
  read_target args w stdin = (w', stdin', target) ->
  disk w' = disk w /\ calls w' = calls w.
Proof.
  unfold read_target. destruct (arg_directory args) as [[|c p]|].
  - destruct (input _ w stdin) as [[w1 s1] l] eqn:E.
    intros [= <- _ _]. now apply input_quiet in E.
  - intros [= <- _ _]; now split.
  - destruct (input _ w stdin) as [[w1 s1] l] eqn:E.
    intros [= <- _ _]. now apply input_quiet in E.
Qed.

(** With the answer read, [proceed] runs [rename_files] or cancels. *)
Lemma proceed_answered (fuel : nat) (target fc rc : string) (w : world fs)
    (answer : string) (rest : list string) :
  let asked :=
    World (disk w)
      (stdout (echo target fc rc w) ++ [Prompt (newline ++ "Proceed? (y/n): ")])
      (calls w) in
  proceed fuel target fc rc w (answer :: rest)
  = if (answer =? "y") || (answer =? "Y")
    then option_map (fun w' => (w', rest, Returned))
           (rename_files fc rc fuel target asked)
    else Some (World (disk w) (stdout asked ++ [Print "Operation cancelled."])
                 (calls w),
               rest, Returned).
Proof.
  unfold proceed, input. cbn [stdout disk calls echo print].
  rewrite confirm_decides.
  destruct ((answer =? "y") || (answer =? "Y")); cbn [negb].
  - now destruct (rename_files fc rc fuel target _).
  - reflexivity.
Qed.

End PromptFacts.

(** ** The calls of a walk, in order *)

Section ShapeFacts.

Context {fs : Type} `{FileSystem fs}.
Variables fc rc : string.

Lemma walk_dirs_shape
    (rec : string -> world fs * nat -> option (world fs * nat))
    (top : string) (dirs : list string) :
  (forall p st st', rec p st = Some st' ->
     exists cs, calls (fst st') = (calls (fst st) ++ cs)%list
                /\ walk_shape fc rc p cs) ->
  forall st st', walk_dirs rec top dirs st = Some st' ->
    exists below, calls (fst st') = (calls (fst st) ++ below)%list
                  /\ dirs_shape fc rc top dirs below.
Proof.
  intros Hrec. induction dirs as [|d dirs IH]; intros [w n] st'; cbn.
  - intros [= <-]. exists []. rewrite app_nil_r. split; [reflexivity|].
    apply dirs_done.
  - destruct (islink (disk w) (join top d)).
    + intros Hw. destruct (IH _ _ Hw) as (below & Hc & Hs).
      exists (Islink (join top d) true :: below).
      cbn in Hc. rewrite Hc, <- app_assoc. split; [reflexivity|].
      now apply dirs_link.
    + destruct (rec _ _) as [st1|] eqn:E; [|discriminate].
      intros Hw. destruct (Hrec _ _ _ E) as (sub & Hc1 & Hs1).
      destruct (IH _ _ Hw) as (below & Hc & Hs).
      exists (Islink (join top d) false :: sub ++ below).
      cbn in Hc1. rewrite Hc, Hc1, <- !app_assoc. split; [reflexivity|].
      now apply dirs_walk.
Qed.

Lemma walk_shaped (fuel : nat) (top : string) (st st' : world fs * nat) :
  walk fc rc fuel top st = Some st' ->
  exists cs, calls (fst st') = (calls (fst st) ++ cs)%list
             /\ walk_shape fc rc top cs.
Proof.
  revert top st st'. induction fuel as [|fuel IH]; intros top [w n] st';
    cbn [walk]; [discriminate|].
  cbn [fst snd].
  destruct (scandir (disk w) top) as [[dirs files]|] eqn:E.
  - destruct (rename_in_attempts fc rc top files
                (called (Scandir top (Some (dirs, files))) w) n)
      as (errors & w1 & Hlen & -> & Hcalls & _).
    intros Hw.
    destruct (walk_dirs_shape (walk fc rc fuel) top dirs IH _ _ Hw)
      as (below & Hc & Hs).
    exists (Scandir top (Some (dirs, files))
              :: map (attempt fc rc top) (combine (candidates fc files) errors)
              ++ below).
    cbn [fst calls called] in *. rewrite Hc, Hcalls, <- !app_assoc.
    split; [reflexivity|]. now apply shape_listed.
  - intros [= <-]. exists [Scandir top None]. split; [reflexivity|].
    apply shape_unlisted.
Qed.

End ShapeFacts.

(** *** Every subdirectory is visited *)

Section ShapeConsequences.

Variables fc rc : string.

Lemma attempt_is_rename (top : string) (tried : list (string * option string))
    (c : call) :
  In c (map (attempt fc rc top) tried) -> is_rename c = true.
Proof.
  intros Hin. apply in_map_iff in Hin as ([f e] & <- & _). reflexivity.
Qed.

Lemma descends_shape (top : string) (cs : list call) :
  walk_shape fc rc top cs ->
  (exists r, In (Scandir top r) cs) /\ descends cs.
Proof.
  intros Hs.
  induction Hs using walk_shape_mut with
    (P0 := fun top dirs below =>
             (forall d, In d dirs ->
                exists l, In (Islink (join top d) l) below
                          /\ (l = false ->
                              exists r, In (Scandir (join top d) r) below))
             /\ descends below).
  - split; [exists None; now left|].
    intros t ds fs' d [Hin|[]]. discriminate.
  - destruct IHHs as [Hd Hbelow]. split; [eexists; now left|].
    intros t ds fs' d Hin Hdin. destruct Hin as [Hin|Hin].
    + injection Hin as <- <- <-.
      destruct (Hd d Hdin) as (l & Hl & Hr). exists l. split.
      * right. apply in_or_app. now right.
      * intros El. destruct (Hr El) as [r Hr']. exists r.
        right. apply in_or_app. now right.
    + apply in_app_or in Hin as [Hin|Hin].
      * apply attempt_is_rename in Hin. discriminate.
      * destruct (Hbelow _ _ _ _ Hin Hdin) as (l & Hl & Hr). exists l. split.
        -- right. apply in_or_app. now right.
        -- intros El. destruct (Hr El) as [r Hr']. exists r.
           right. apply in_or_app. now right.
  - split; [intros d []|]. intros t ds fs' d [].
  - destruct IHHs as [Hd Hbelow]. split.
    + intros d' [<-|Hin].
      * exists true. split; [now left | discriminate].
      * destruct (Hd d' Hin) as (l & Hl & Hr). exists l. split; [now right|].
        intros El. destruct (Hr El) as [r Hr']. exists r. now right.
    + intros t ds fs' d' [Hin|Hin] Hdin; [discriminate|].
      destruct (Hbelow _ _ _ _ Hin Hdin) as (l & Hl & Hr). exists l.
      split; [now right|].
      intros El. destruct (Hr El) as [r Hr']. exists r. now right.
  - destruct IHHs as [[r0 Hr0] Hsub]. destruct IHHs0 as [Hd Hbelow]. split.
    + intros d' [<-|Hin].
      * exists false. split; [now left|]. intros _. exists r0.
        right. apply in_or_app. now left.
      * destruct (Hd d' Hin) as (l & Hl & Hr). exists l. split.
        -- right. apply in_or_app. now right.
        -- intros El. destruct (Hr El) as [r Hr']. exists r.
           right. apply in_or_app. now right.
    + intros t ds fs' d' [Hin|Hin] Hdin; [discriminate|].
      apply in_app_or in Hin as [Hin|Hin].
      * destruct (Hsub _ _ _ _ Hin Hdin) as (l & Hl & Hr). exists l. split.
        -- right. apply in_or_app. now left.
        -- intros El. destruct (Hr El) as [r Hr']. exists r.
           right. apply in_or_app. now left.
      * destruct (Hbelow _ _ _ _ Hin Hdin) as (l & Hl & Hr). exists l. split.
        -- right. apply in_or_app. now right.
        -- intros El. destruct (Hr El) as [r Hr']. exists r.
           right. apply in_or_app. now right.
Qed.

(** *** Nothing is listed but by descent *)

Lemma listed_shape (top : string) (cs : list call) :
  walk_shape fc rc top cs -> listed_by_descent top cs.
Proof.
  intros Hs.
  induction Hs using walk_shape_mut with
    (P0 := fun top dirs below =>
             forall p r,
               In (Scandir p r) below ->
               (exists d, In d dirs /\ p = join top d
                          /\ In (Islink p false) below)
               \/ exists t ds fs' d,
                    In (Scandir t (Some (ds, fs'))) below
                    /\ In d ds /\ p = join t d
                    /\ In (Islink p false) below).
  - intros p r [[= <- _]|[]]. now left.
  - intros p r [[= <- _]|Hin]; [now left|]. right.
    apply in_app_or in Hin as [Hin|Hin];
      [apply attempt_is_rename in Hin; discriminate|].
    destruct (IHHs p r Hin) as [(d & Hd & -> & Hl)|(t & ds & fs' & d & Ht & Hd & -> & Hl)].
    + exists top, dirs, files, d. repeat split; auto; [now left|].
      right. apply in_or_app. now right.
    + exists t, ds, fs', d. repeat split; auto;
        right; apply in_or_app; now right.
  - intros p r [].
  - intros p r [Hin|Hin]; [discriminate|].
    destruct (IHHs p r Hin) as [(d' & Hd & -> & Hl)|(t & ds & fs' & d' & Ht & Hd & -> & Hl)].
    + left. exists d'. repeat split; auto; now right.
    + right. exists t, ds, fs', d'. repeat split; auto; now right.
  - intros p r [Hin|Hin]; [discriminate|].
    apply in_app_or in Hin as [Hin|Hin].
    + destruct (IHHs p r Hin) as [->|(t & ds & fs' & d' & Ht & Hd & -> & Hl)].
      * left. exists d. repeat split; auto; now left.
      * right. exists t, ds, fs', d'. repeat split; auto;
          right; apply in_or_app; now left.
    + destruct (IHHs0 p r Hin) as [(d' & Hd & -> & Hl)|(t & ds & fs' & d' & Ht & Hd & -> & Hl)].
      * left. exists d'. repeat split; auto; [now right|].
        right. apply in_or_app. now right.
      * right. exists t, ds, fs', d'. repeat split; auto;
          right; apply in_or_app; now right.
Qed.

End ShapeConsequences.

(** *** The walk stays below its starting point *)

Lemma startswith_trans (a b c : string) :
  startswith a b = true -> startswith b c = true -> startswith a c = true.
Proof.
  intros Hab Hbc.
  rewrite (startswith_split _ _ Hab). now apply startswith_app_r.
Qed.

Lemma join_dir_prefix (root b : string) :
  contains "/" b = false -> join root b = dir_prefix root ++ b.
Proof. intros Hb. unfold dir_prefix. now apply join_plain. Qed.

Lemma under_join (top b : string) :
  contains "/" b = false -> under top (join top b) = true.
Proof.
  intros Hb. unfold under. rewrite join_dir_prefix by exact Hb.
  apply startswith_app.
Qed.

Lemma dir_prefix_start (top : string) : startswith (dir_prefix top) top = true.
Proof.
  unfold dir_prefix. destruct ((top =? "") || endswith top sep).
  - rewrite <- (append_nil_r top) at 1. apply startswith_app.
  - apply startswith_app.
Qed.

Lemma under_down (top d p : string) :
  contains "/" d = false ->
  (p =? join top d) || under (join top d) p = true -> under top p = true.
Proof.
  intros Hd Hp. apply orb_true_iff in Hp as [Hp|Hp].
  - apply String.eqb_eq in Hp. subst p. now apply under_join.
  - unfold under in *.
    apply (startswith_trans _ _ _ Hp).
    apply (startswith_trans _ (join top d)); [apply dir_prefix_start|].
    now apply under_join.
Qed.

Lemma within_down (top d : string) (b : bool) (c : call) :
  contains "/" d = false ->
  within (join top d) b c = true -> within top b c = true.
Proof.
  intros Hd. destruct c as [p a|p a|p a|src dst e]; cbn [within].
  - intros Hp. rewrite (under_down top d p Hd Hp). apply orb_true_r.
  - intros Hp. rewrite (under_down top d p Hd Hp). apply orb_true_r.
  - intros Hp. rewrite (under_down top d p Hd Hp). apply orb_true_r.
  - intros Hp. apply andb_true_iff in Hp as [Hs Hdst].
    rewrite (under_down top d src Hd) by (rewrite Hs; apply orb_true_r).
    destruct b; [|reflexivity]. cbn [negb orb andb] in *.
    apply (under_down top d dst Hd). rewrite Hdst. apply orb_true_r.
Qed.

Lemma within_shape (fc rc top : string) (cs : list call) :
  walk_shape fc rc top cs ->
  forallb plain_entries cs = true ->
  forallb (within top (plain_name rc)) cs = true.
Proof.
  intros Hs.
  induction Hs using walk_shape_mut with
    (P0 := fun top dirs below =>
             forallb plain_name dirs = true ->
             forallb plain_entries below = true ->
             forallb (within top (plain_name rc)) below = true).
  - intros _. cbn. now rewrite String.eqb_refl.
  - cbn [forallb plain_entries]. rewrite !forallb_app. intros Hp.
    apply andb_true_iff in Hp as [Hp Hrest].
    apply andb_true_iff in Hp as [Hdirs Hfiles].
    apply andb_true_iff in Hrest as [_ Hbelow].
    cbn [within]. rewrite String.eqb_refl. cbn [orb andb].
    rewrite (IHHs Hdirs Hbelow), andb_true_r.
    apply forallb_forall. intros c Hin.
    apply in_map_iff in Hin as ([f e] & <- & Hin).
    apply in_combine_l, filter_In in Hin as [Hf _].
    rewrite forallb_forall in Hfiles. specialize (Hfiles f Hf).
    apply negb_true_iff in Hfiles.
    cbn [attempt within]. rewrite (under_join top f Hfiles). cbn [andb].
    unfold plain_name at 1. destruct (contains "/" rc) eqn:Hrc; [reflexivity|].
    cbn [negb orb]. apply under_join. now apply replace_no_sep.
  - reflexivity.
  - cbn [forallb plain_entries within]. intros Hdirs Hbelow.
    apply andb_true_iff in Hdirs as [Hd Hdirs]. apply negb_true_iff in Hd.
    rewrite (under_join top d Hd), orb_true_r. cbn [andb]. now apply IHHs.
  - cbn [forallb plain_entries within]. rewrite !forallb_app.
    intros Hdirs Hp.
    apply andb_true_iff in Hdirs as [Hd Hdirs]. apply negb_true_iff in Hd.
    cbn [andb] in Hp. apply andb_true_iff in Hp as [Hsub Hbelow].
    rewrite (under_join top d Hd), orb_true_r. cbn [andb].
    rewrite (IHHs0 Hdirs Hbelow), andb_true_r.
    specialize (IHHs Hsub). rewrite forallb_forall in *.
    intros c Hin. apply (within_down top d _ c Hd). now apply IHHs.
Qed.

(** ** Relations kept along a walk *)

Section WalkRelations.

Context {fs : Type} `{FileSystem fs}.
Variables fc rc : string.
Variable R : world fs * nat -> world fs * nat -> Prop.
Hypothesis R_refl : forall st, R st st.
Hypothesis R_trans : forall a b c, R a b -> R b c -> R a c.
Hypothesis R_called :
  forall w n c, is_rename c = false -> R (w, n) (called c w, n).
Hypothesis R_rename_one :
  forall root st f, R st (rename_one fc rc root st f).

Lemma rename_in_keeps (root : string) (files : list string)
    (st : world fs * nat) :
  R st (rename_in fc rc root files st).
Proof.
  revert st. induction files as [|f files IH]; intros st; [apply R_refl|].
  unfold rename_in; cbn [fold_left].
  eapply R_trans; [apply R_rename_one | apply IH].
Qed.

Lemma walk_dirs_keeps
    (rec : string -> world fs * nat -> option (world fs * nat))
    (top : string) (dirs : list string) :
  (forall p st st', rec p st = Some st' -> R st st') ->
  forall st st', walk_dirs rec top dirs st = Some st' -> R st st'.
Proof.
  intros Hrec. induction dirs as [|d dirs IH]; intros [w n] st'; cbn.
  - intros [= <-]. apply R_refl.
  - assert (Hl : forall l, R (w, n) (called (Islink (join top d) l) w, n))
      by (intros l; now apply R_called).
    destruct (islink (disk w) (join top d)).
    + intros Hw. eapply R_trans; [apply (Hl true) | now apply IH].
    + destruct (rec _ _) as [st1|] eqn:E; [|discriminate].
      intros Hw. eapply R_trans; [apply (Hl false)|].
      eapply R_trans; [now apply (Hrec _ _ _ E) | now apply IH].
Qed.

(** A relation that every call and every round of the loop keeps is kept
    by the walk. *)
Lemma walk_keeps (fuel : nat) (top : string) (st st' : world fs * nat) :
  walk fc rc fuel top st = Some st' -> R st st'.
Proof.
  revert top st st'. induction fuel as [|fuel IH]; intros top [w n] st';
    cbn [walk]; [discriminate|].
  cbn [fst snd].
  destruct (scandir (disk w) top) as [[dirs files]|].
  - intros Hw.
    eapply R_trans; [apply (R_called w n (Scandir top (Some (dirs, files))));
                     reflexivity|].
    eapply R_trans; [apply rename_in_keeps|].
    eapply walk_dirs_keeps; [|exact Hw]. exact IH.
  - intros [= <-]. now apply R_called.
Qed.

End WalkRelations.

(** *** One line for each rename asked for *)

Section OutputFacts.

Context {fs : Type} `{FileSystem fs}.
Variables fc rc : string.

Lemma attempts_app (a b : list call) : attempts (a ++ b) = attempts a + attempts b.
Proof. unfold attempts. now rewrite filter_app, List.length_app. Qed.

Lemma attempts_one (c : call) :
  attempts [c] = if is_rename c then 1 else 0.
Proof. unfold attempts. cbn. now destruct (is_rename c). Qed.

Lemma walk_lines (fuel : nat) (top : string) (st st' : world fs * nat) :
  walk fc rc fuel top st = Some st' ->
  List.length (stdout (fst st')) + attempts (calls (fst st))
  = List.length (stdout (fst st)) + attempts (calls (fst st')).
Proof.
  apply (walk_keeps fc rc
           (fun a b => List.length (stdout (fst b)) + attempts (calls (fst a))
                       = List.length (stdout (fst a)) + attempts (calls (fst b)))).
  - reflexivity.
  - intros a b c Hab Hbc. lia.
  - intros w n c Hc. cbn [fst stdout calls called].
    rewrite attempts_app, attempts_one, Hc. lia.
  - intros root [w n] f. unfold rename_one.
    destruct (contains fc f); [|reflexivity].
    destruct (rename (disk w) _ _); cbn [fst stdout calls called print];
      rewrite attempts_app, attempts_one, List.length_app; cbn; lia.
Qed.

(** A run prints one line for each rename it asked for and one line to
    close. *)
Lemma rename_files_lines (fuel : nat) (target : string) (w w' : world fs) :
  rename_files fc rc fuel target w = Some w' ->
  List.length (stdout w') + attempts (calls w)
  = List.length (stdout w) + attempts (calls w') + 1.
Proof.
  unfold rename_files. destruct (isdir (disk w) target); cbn [negb].
  - destruct (walk fc rc fuel target _) as [[w1 n]|] eqn:E; [|discriminate].
    intros [= <-]. apply walk_lines in E.
    cbn [fst stdout calls called print] in *.
    rewrite attempts_app, attempts_one in E. cbn [is_rename] in E.
    rewrite List.length_app. cbn [List.length]. lia.
  - intros [= <-]. cbn [fst stdout calls called print].
    rewrite attempts_app, attempts_one, List.length_app. cbn. lia.
Qed.

Lemma replays_quiet (d d' : fs) (cs : list call) :
  replays d cs d' -> attempts cs = 0 -> d = d'.
Proof.
  intros Hr. induction Hr; intros Ha; auto; discriminate.
Qed.

End OutputFacts.

(** ** More on [replace] *)

(** A one-character find token that the replace token does not hold is
    gone from the new name. *)
Lemma replace_char_gone (c : ascii) (rc s : string) :
  contains (String c "") rc = false ->
  contains (String c "") (replace s (String c "") rc) = false.
Proof.
  intros Hrc.
  assert (Hne : String c "" <> "") by discriminate.
  scan_induction s (String c "") Hne; [| intros IH | intros IH].
  - now rewrite replace_nil.
  - rewrite replace_hit by exact Hne. now rewrite contains_char_app, Hrc, IH.
  - rewrite replace_miss by assumption.
    match goal with Hm : startswith _ _ = false |- _ =>
      cbn [contains startswith] in *; now rewrite Hm, IH
    end.
Qed.

Lemma replace_copies (n : nat) (fc : string) :
  fc <> "" -> replace (copies n fc) fc "" = "".
Proof.
  intros Hne. induction n as [|n IH]; cbn [copies].
  - now apply replace_nil.
  - now rewrite replace_hit.
Qed.

Lemma replace_to_nothing (s fc : string) :
  fc <> "" -> replace s fc "" = "" -> exists n, s = copies n fc.
Proof.
  intros Hne.
  scan_induction s fc Hne; [| intros IH | intros IH].
  - intros _. now exists 0.
  - rewrite replace_hit by exact Hne. cbn [append]. intros Ht.
    destruct (IH Ht) as [n ->]. now exists (S n).
  - rewrite replace_miss by assumption. discriminate.
Qed.

Lemma join_nothing (root : string) : join root "" = dir_prefix root.
Proof.
  rewrite join_dir_prefix by reflexivity. apply append_nil_r.
Qed.

(** ** [normpath] and a separator at the end *)

Lemma split_sep_nonempty (p : string) : split_sep p <> [].
Proof.
  destruct p as [|c p]; cbn; [discriminate|].
  destruct (Ascii.eqb c "/"); [discriminate|].
  destruct (split_sep p); discriminate.
Qed.

Lemma split_sep_trailing (p : string) :
  split_sep (p ++ "/") = (split_sep p ++ [""])%list.
Proof.
  induction p as [|c p IH]; [reflexivity|].
  cbn [append split_sep]. rewrite IH.
  destruct (Ascii.eqb c "/"); [reflexivity|].
  pose proof (split_sep_nonempty p).
  destruct (split_sep p); [contradiction | reflexivity].
Qed.

Lemma slashes_trailing (p : string) :
  p <> "" -> endswith p sep = false ->
  startswith (p ++ "/") "/" = startswith p "/"
  /\ startswith (p ++ "/") "//" = startswith p "//"
  /\ startswith (p ++ "/") "///" = startswith p "///".
Proof.
  intros Hne He. destruct p as [|a [|b [|c p]]]; [contradiction| | |].
  - unfold endswith, sep in He.
    cbn [length Nat.leb Nat.sub drop String.eqb] in He.
    cbn [append startswith]. rewrite (Ascii.eqb_sym "/" a).
    destruct (Ascii.eqb a "/"); [discriminate | auto].
  - unfold endswith, sep in He.
    cbn [length Nat.leb Nat.sub drop String.eqb] in He.
    cbn [append startswith]. rewrite (Ascii.eqb_sym "/" b).
    destruct (Ascii.eqb b "/"); [discriminate|].
    rewrite !andb_false_r. auto.
  - cbn [append startswith]. auto.
Qed.

Lemma normpath_dir_prefix (p : string) :
  normpath (dir_prefix p) = normpath p.
Proof.
  unfold dir_prefix.
  destruct (p =? "") eqn:E0; [reflexivity|]. cbn [orb].
  destruct (endswith p sep) eqn:Ee; [reflexivity|].
  apply String.eqb_neq in E0.
  destruct (slashes_trailing p E0 Ee) as (H1 & H2 & H3).
  unfold normpath, sep.
  change (p ++ "/" =? "") with (p ++ "/" =? "")%string.
  replace (p ++ "/" =? "") with false by (destruct p; [contradiction | reflexivity]).
  replace (p =? "") with false by (destruct p; [contradiction | reflexivity]).
  rewrite H1, H2, H3, split_sep_trailing, fold_left_app.
  reflexivity.
Qed.

(** [abspath] of the empty path is the working directory, normalised. *)
Lemma abspath_nothing (cwd : string) : abspath cwd "" = normpath cwd.
Proof.
  unfold abspath. cbn [startswith]. rewrite join_nothing.
  apply normpath_dir_prefix.
Qed.

(** ** What [main] reads *)

Section MainFacts.

Context {fs : Type} `{FileSystem fs}.

(** However [main] ends, what it read is settled by the command line:
    it returns when the input has the lines it asks for, and it stops at
    [EOFError], with nothing done, when it has not. *)
Lemma main_reads (fuel : nat) (args : namespace) (w w' : world fs)
    (stdin stdin' : list string) (e : ending) :
  main fuel args w stdin = Some (w', stdin', e) ->
  match e with
  | Returned =>
      lines_read args <= List.length stdin
      /\ stdin' = skipn (lines_read args) stdin
  | EOFError =>
      List.length stdin < lines_read args
      /\ stdin' = [] /\ disk w' = disk w /\ calls w' = calls w
  end.
Proof.
  destruct args as [d f r].
  unfold main, read_target, read_token, proceed, input, lines_read.
  cbn [arg_directory arg_find arg_replace].
  destruct d as [[|c p]|]; destruct f as [f|]; destruct r as [r|];
    destruct stdin as [|l1 [|l2 [|l3 [|l4 rest]]]];
    cbn [option_map];
    repeat match goal with
           | |- context [if ?b then _ else _] => destruct b
           | |- context [rename_files ?a ?b ?c ?d ?e] =>
               destruct (rename_files a b c d e)
           end;
    intros Hm; try discriminate Hm;
    inversion Hm; subst; clear Hm;
    cbn [List.length skipn Nat.add disk calls print echo];
    repeat split; lia.
Qed.

End MainFacts.

(** ** The calls of a run *)

Section RunShape.

Context {fs : Type} `{FileSystem fs}.
Variables fc rc : string.

Lemma rename_files_shaped (fuel : nat) (target : string) (w w' : world fs) :
  isdir (disk w) target = true ->
  rename_files fc rc fuel target w = Some w' ->
  exists cs,
    calls w' = (calls w ++ Isdir target true :: cs)%list
    /\ walk_shape fc rc target cs.
Proof.
  intros Hd. unfold rename_files. rewrite Hd. cbn [negb].
  destruct (walk fc rc fuel target _) as [[w1 n]|] eqn:E; [|discriminate].
  intros [= <-]. apply walk_shaped in E as (cs & Hc & Hs).
  exists cs. cbn [fst calls called print] in *.
  rewrite Hc, <- app_assoc. auto.
Qed.

(** The calls of a run: the test of the target alone, or the test and
    then a walk. *)
Lemma rename_files_calls (fuel : nat) (target : string) (w w' : world fs)
    (cs : list call) :
  rename_files fc rc fuel target w = Some w' ->
  calls w' = (calls w ++ cs)%list ->
  cs = [Isdir target false]
  \/ exists cs0, cs = Isdir target true :: cs0 /\ walk_shape fc rc target cs0.
Proof.
  intros Hrun Hcs. destruct (isdir (disk w) target) eqn:Hd.
  - destruct (rename_files_shaped fuel target w w' Hd Hrun) as (cs0 & Hc & Hs).
    rewrite Hcs in Hc. apply app_inv_head in Hc. right. now exists cs0.
  - rewrite (rename_files_missing fc rc fuel target w Hd) in Hrun.
    injection Hrun as <-. cbn [calls] in Hcs.
    apply app_inv_head in Hcs. now left.
Qed.

End RunShape.

Lemma filter_none {A : Type} (f : A -> bool) (l : list A) :
  (forall x, In x l -> f x = false) -> filter f l = [].
Proof.
  induction l as [|x l IH]; intros Hl; [reflexivity|].
  cbn. rewrite (Hl x (or_introl eq_refl)). apply IH.
  intros y Hy. apply Hl. now right.
Qed.

(** *** The lines follow the renames *)

Section ReportFacts.

Context {fs : Type} `{FileSystem fs}.
Variables fc rc : string.

Lemma walk_reports (fuel : nat) (top : string) (st st' : world fs * nat) :
  walk fc rc fuel top st = Some st' ->
  exists cs outs,
    calls (fst st') = (calls (fst st) ++ cs)%list
    /\ stdout (fst st') = (stdout (fst st) ++ outs)%list
    /\ Forall2 (reported fc rc) (filter is_rename cs) outs.
Proof.
  apply (walk_keeps fc rc
           (fun a b => exists cs outs,
              calls (fst b) = (calls (fst a) ++ cs)%list
              /\ stdout (fst b) = (stdout (fst a) ++ outs)%list
              /\ Forall2 (reported fc rc) (filter is_rename cs) outs)).
  - intros a. exists [], []. rewrite !app_nil_r. auto.
  - intros a b c (cs & outs & H1 & H2 & H3) (cs' & outs' & H1' & H2' & H3').
    exists (cs ++ cs')%list, (outs ++ outs')%list.
    rewrite H1', H1, H2', H2, <- !app_assoc, filter_app.
    auto using Forall2_app.
  - intros w n c Hc. exists [c], []. cbn. rewrite Hc, app_nil_r. auto.
  - intros root [w n] f. destruct (contains fc f) eqn:Hc.
    + destruct (rename_one_candidate fc rc root w n f Hc)
        as (d' & e & -> & _).
      exists [attempt fc rc root (f, e)], [attempt_report fc rc (f, e)].
      cbn. repeat split. constructor; [|constructor].
      now exists root, f, e.
    + rewrite (rename_one_skip fc rc root (w, n) f Hc).
      exists [], []. rewrite !app_nil_r. auto.
Qed.

End ReportFacts.

(** ** Quotes, once more *)

Lemma take_and_drop (n : nat) (s : string) : take n s ++ drop n s = s.
Proof.
  revert s; induction n as [|n IH]; intros [|c s]; simpl; auto.
  now rewrite IH.
Qed.

Lemma endswith_split (s p : string) :
  endswith s p = true -> s = take (length s - length p) s ++ p.
Proof.
  unfold endswith. intros Hs. apply andb_true_iff in Hs as [_ Hd].
  apply String.eqb_eq in Hd.
  rewrite <- Hd at 2. symmetry. apply take_and_drop.
Qed.

(** A string that starts and ends with the character [q] is [q] alone or
    [q], a body, [q]; [s[1:-1]] is empty or the body. *)
Lemma quoted_split (q : ascii) (s : string) :
  startswith s (String q "") = true ->
  endswith s (String q "") = true ->
  (s = String q "" /\ slice_1_m1 s = "")
  \/ exists body, s = String q (body ++ String q "") /\ slice_1_m1 s = body.
Proof.
  intros Hs He. apply endswith_split in He.
  destruct (take (length s - length (String q "")) s) as [|a t].
  - left. cbn in He. now subst s.
  - right. exists t. rewrite He in Hs |- *. cbn [append startswith] in Hs.
    apply andb_true_iff in Hs as [Hq _]. apply Ascii.eqb_eq in Hq. subst a.
    split; [reflexivity | apply slice_quoted].
Qed.

(** ** A candidate changes its name *)

Lemma append_inv_head (u a b : string) : u ++ a = u ++ b -> a = b.
Proof.
  induction u as [|c u IH]; cbn; [auto|]. intros [= E]. now apply IH.
Qed.

Lemma append_same_length (a b x y : string) :
  a ++ x = b ++ y -> length a = length b -> a = b.
Proof.
  revert b; induction a as [|c a IH]; intros [|d b]; cbn;
    try discriminate; [reflexivity|].
  intros [= -> E] [= Hl]. f_equal. now apply IH.
Qed.

Lemma find_first_split (f s : string) (i : nat) :
  find_first f s = Some i -> s = take i s ++ f ++ drop (i + length f) s.
Proof.
  revert i; induction s as [|c s IH]; intros i; cbn [find_first].
  - destruct (startswith "" f) eqn:E; [|discriminate].
    intros [= <-]. cbn [take append Nat.add]. now apply startswith_split.
  - destruct (startswith (String c s) f) eqn:E.
    + intros [= <-]. cbn [take append Nat.add]. now apply startswith_split.
    + destruct (find_first f s) as [j|]; [|discriminate].
      intros [= <-]. cbn [take append Nat.add drop].
      f_equal. now apply IH.
Qed.

Lemma replace_changes (s fc rc : string) :
  contains fc s = true -> replace s fc rc = s -> rc = fc.
Proof.
  intros Hc Hr.
  pose proof (count_pos _ _ Hc) as Hk.
  pose proof (length_replace s fc rc) as Hl. rewrite Hr in Hl.
  assert (Hlen : length rc = length fc) by nia.
  destruct (string_dec fc "") as [->|Hne].
  - destruct rc; [reflexivity | discriminate].
  - destruct (find_first fc s) as [i|] eqn:E.
    + rewrite (replace_at_first s fc rc i Hne E) in Hr.
      rewrite (find_first_split fc s i E) in Hr at 3.
      apply append_inv_head in Hr.
      now apply (append_same_length _ _ _ _ Hr).
    + apply find_first_none in E. congruence.
Qed.

(** ** The claims of the specification *)

(** *** C1: the empty find token *)

(** Against C1 as stated: with the empty find token nothing is rejected.
    On a directory holding the one file [ab], with replace token [-], the
    run asks for the rename of [ab] to [-a-b-], which goes through, and
    reports one file renamed; no validation error is printed. *)
Lemma empty_find_is_not_rejected :
  option_map (fun w' => (calls w', stdout w', MemFS.table (disk w')))
    (rename_files "" "-" 8 "/r" (fresh single))
  = Some ([Isdir "/r" true; Scandir "/r" (Some ([], ["ab"]));
           Rename "/r/ab" "/r/-a-b-" None],
          [Print "Renamed: 'ab' -> '-a-b-'"; Print "Finished. Renamed 1 files."],
          [("/r/-a-b-", MemFS.KFile); ("/r", MemFS.KDir)]).
Proof. vm_compute. reflexivity. Qed.

(** C1 (amended): when the find token is the empty string the program
    does not reject it: every file name met is a candidate, and the rename
    asked for is to the name with the replace token put before each of
    its characters and at its end; the outcome is reported and counted
    as for any other candidate. *)
Theorem empty_find_renames_every_file {fs : Type} `{FileSystem fs}
    (rc root : string) (w : world fs) (n : nat) (filename : string) :
  contains "" filename = true
  /\ exists d' error,
       rename_one "" rc root (w, n) filename
       = (World d'
            (stdout w ++ [report filename (interleave rc filename) error])
            (calls w ++ [Rename (join root filename)
                           (join root (interleave rc filename)) error]),
          n + match error with None => 1 | Some _ => 0 end).
Proof.
  split; [apply contains_empty|].
  destruct (rename_one_candidate "" rc root w n filename (contains_empty _))
    as (d' & error & E & _).
  exists d', error. rewrite E. cbn [attempt attempt_report replace].
  do 2 f_equal. now destruct error.
Qed.

(** *** C2: applying the transformation twice *)

(** Against C2 as stated: with find token [_] and replace token [_] the
    name [a_b] contains the find token, the transformation applied twice
    gives what it gives applied once, and yet the replace token contains
    the find token. *)
Lemma idempotent_though_replace_contains_find :
  contains "_" "a_b" = true
  /\ replace (replace "a_b" "_" "_") "_" "_" = replace "a_b" "_" "_"
  /\ contains "_" "_" = true.
Proof. repeat split. Qed.

(** C2 (amended): for every file name containing the find token, the
    transformation gives the same name when applied a second time only if
    the replace token does not contain the find token or is equal to
    it. *)
Theorem idempotent_only_if (F fc rc : string) :
  contains fc F = true ->
  replace (replace F fc rc) fc rc = replace F fc rc ->
  contains fc rc = false \/ rc = fc.
Proof.
  intros HF Hidem.
  destruct (contains fc rc) eqn:Hrc; [right | now left].
  apply contains_same_length; [exact Hrc|].
  pose proof (contains_length _ _ Hrc) as Hle.
  assert (Hin : contains fc (replace F fc rc) = true).
  { apply (contains_trans fc rc); [exact Hrc | now apply contains_replace]. }
  apply count_pos in Hin.
  pose proof (length_replace (replace F fc rc) fc rc) as Hlen.
  rewrite Hidem in Hlen. nia.
Qed.

Lemma idempotent_only_if_witness :
  contains "_" "a_b.txt" = true
  /\ replace (replace "a_b.txt" "_" " ") "_" " " = replace "a_b.txt" "_" " "
  /\ (contains "_" " " = false \/ " " = "_").
Proof.
  split; [reflexivity|]. split; [reflexivity|].
  apply (idempotent_only_if "a_b.txt" "_" " "); reflexivity.
Defined.

(** *** C4: the new name *)

(** C4: for every candidate file name, with a non-empty find token, the
    new name the program asks the rename to is the old name with all
    non-overlapping occurrences of the find token replaced by the replace
    token, scanning left to right: it is the one result of the scan
    [replaced_all]. *)
Theorem new_name_replaces_left_to_right {fs : Type} `{FileSystem fs}
    (fc rc filename : string) :
  fc <> "" ->
  contains fc filename = true ->
  replaced_all fc rc filename (replace filename fc rc)
  /\ (forall t, replaced_all fc rc filename t -> t = replace filename fc rc)
  /\ forall root (w : world fs) n,
       exists error,
         calls (fst (rename_one fc rc root (w, n) filename))
         = (calls w ++ [Rename (join root filename)
                          (join root (replace filename fc rc)) error])%list.
Proof.
  intros Hne Hc. split; [now apply replaced_all_replace|].
  split; [intros t; now apply replaced_all_unique|].
  intros root w n.
  destruct (rename_one_candidate fc rc root w n filename Hc)
    as (d' & error & E & _).
  exists error. now rewrite E.
Qed.

Lemma new_name_witness :
  "_" <> "" /\ contains "_" "a_b_c.txt" = true
  /\ replaced_all "_" " " "a_b_c.txt" "a b c.txt"
  /\ forall root (w : world MemFS.t) n,
       exists error,
         calls (fst (rename_one "_" " " root (w, n) "a_b_c.txt"))
         = (calls w ++ [Rename (join root "a_b_c.txt")
                          (join root "a b c.txt") error])%list.
Proof.
  assert (Hne : "_" <> "") by discriminate.
  split; [exact Hne|]. split; [reflexivity|].
  destruct (new_name_replaces_left_to_right (fs := MemFS.t)
              "_" " " "a_b_c.txt" Hne eq_refl) as (H1 & _ & H3).
  split; [exact H1 | exact H3].
Defined.

(** *** C3: the directory of the renamed file *)

(** Against C3 as stated: with find token [_] and replace token [/], the
    file [a_b] of [/r], next to the directory [a], is renamed from
    [/r/a_b] to [/r/a/b]: it leaves [/r] for [/r/a]. *)
Lemma rename_can_leave_the_directory :
  option_map (fun w' => (filter is_rename (calls w'), MemFS.table (disk w')))
    (rename_files "_" "/" 8 "/r" (fresh nested))
  = Some ([Rename "/r/a_b" "/r/a/b" None],
          [("/r/a/b", MemFS.KFile); ("/r", MemFS.KDir); ("/r/a", MemFS.KDir)])
  /\ dirname "/r/a_b" = "/r" /\ dirname "/r/a/b" = "/r/a".
Proof. repeat split. Qed.

(** C3 (amended): when the replace token contains no path separator, for
    every file processed the old path and the new path share the same
    parent directory: a rename never moves a file out of its containing
    directory (directory listings giving names without a separator, as
    directory entries are). *)
Theorem renamed_within_the_directory {fs : Type} `{FileSystem fs}
    (fc rc : string) (fuel : nat) (target : string) (w w' : world fs)
    (cs : list call) :
  rename_files fc rc fuel target w = Some w' ->
  calls w' = (calls w ++ cs)%list ->
  contains "/" rc = false ->
  forallb plain_listing cs = true ->
  forall src dst error,
    In (Rename src dst error) cs -> dirname src = dirname dst.
Proof.
  intros Hrun Hcs Hrc Hplain src dst error Hin.
  destruct (isdir (disk w) target) eqn:Hd.
  - destruct (rename_files_walked fc rc fuel target w w' Hd Hrun)
      as (cs0 & outs & Hcalls & _ & [Htr _] & _).
    rewrite Hcs in Hcalls. apply app_inv_head in Hcalls. subst cs.
    destruct Hin as [Hin|Hin]; [discriminate|].
    destruct (Htr _ _ _ Hin)
      as (root & dirs & files & f & Hscan & Hf & _ & -> & -> & _).
    assert (Hp : contains "/" f = false).
    { rewrite forallb_forall in Hplain.
      specialize (Hplain _ (or_intror Hscan)). cbn in Hplain.
      rewrite forallb_forall in Hplain. specialize (Hplain _ Hf).
      now apply negb_true_iff in Hplain. }
    apply dirname_join_plain; [exact Hp | now apply replace_no_sep].
  - rewrite (rename_files_missing fc rc fuel target w Hd) in Hrun.
    injection Hrun as <-. cbn [calls] in Hcs.
    apply app_inv_head in Hcs. subst cs.
    destruct Hin as [Hin|[]]. discriminate.
Qed.

Lemma renamed_within_the_directory_witness :
  let w' := after (fresh demo) (rename_files "_" " " 8 "/r" (fresh demo)) in
  In (Rename "/r/sub_1/e_f" "/r/sub_1/e f" None) (calls w')
  /\ dirname "/r/sub_1/e_f" = dirname "/r/sub_1/e f".
Proof.
  split; [vm_compute; tauto|].
  apply (renamed_within_the_directory "_" " " 8 "/r" (fresh demo)
           (after (fresh demo) (rename_files "_" " " 8 "/r" (fresh demo)))
           (calls (after (fresh demo) (rename_files "_" " " 8 "/r" (fresh demo))))
         ) with (error := None);
    [vm_compute; reflexivity | reflexivity | reflexivity
     | vm_compute; reflexivity | vm_compute; tauto].
Defined.

(** *** C5: what is left alone *)



(** *** C6: a target that is not a directory *)

(** C6: if the target does not exist or is not a directory, the run ends
    at once, whatever the fuel: the one call made is the test of the
    target, nothing is listed and nothing renamed, the disk is as it was,
    and the line printed says that the directory does not exist. *)
Theorem missing_directory_fails_fast {fs : Type} `{FileSystem fs}
    (fc rc : string) (target : string) (w : world fs) :
  isdir (disk w) target = false ->
  forall fuel,
    rename_files fc rc fuel target w
    = Some (World (disk w)
              (stdout w
               ++ [Print ("Error: Directory '" ++ target ++ "' does not exist.")])
              (calls w ++ [Isdir target false])).
Proof. intros Hd fuel. now apply rename_files_missing. Qed.

Lemma missing_directory_witness :
  isdir demo "/r/note.txt" = false
  /\ rename_files "_" " " 0 "/r/note.txt" (fresh demo)
     = Some (World demo
               [Print "Error: Directory '/r/note.txt' does not exist."]
               [Isdir "/r/note.txt" false]).
Proof.
  split; [reflexivity|].
  apply (missing_directory_fails_fast "_" " " "/r/note.txt" (fresh demo)).
  reflexivity.
Defined.

(** *** C7: a rename that fails *)

(** C7: a run on a directory returns (fuel above the height of the target
    is enough), whatever its renames answer.  Every rename that failed
    left a line with the name of the file and the message of the error;
    the walk went on as if nothing had failed: its calls have the shape
    of the whole top-down walk ([walk_shape]: each directory listed, a
    rename for each of its candidates in listing order whatever the
    renames answered, then each subdirectory tested for a link and,
    unless it is one, walked in its turn), so every subdirectory of every
    directory listed was reached ([descends]) and every candidate of
    every directory listed was tried, those after a failure too; and the
    count in the last line is the number of renames that went through,
    the failed ones not among them. *)
Theorem failed_rename_does_not_stop_the_run {fs : Type} `{Wellfounded fs}
    (fc rc : string) (target : string) (w : world fs) (fuel : nat) :
  isdir (disk w) target = true ->
  height (disk w) target < fuel ->
  exists w' cs outs,
    rename_files fc rc fuel target w = Some w'
    /\ calls w' = (calls w ++ Isdir target true :: cs)%list
    /\ replays (disk w) cs (disk w')
    /\ stdout w'
       = (stdout w ++ outs
          ++ [Print ("Finished. Renamed " ++ str_of_nat (renamed cs)
                     ++ " files.")])%list
    /\ (forall src dst e,
          In (Rename src dst (Some e)) cs ->
          exists root filename,
            src = join root filename
            /\ In (Print ("Error renaming '" ++ filename ++ "': " ++ e)) outs)
    /\ (forall root dirs files filename,
          In (Scandir root (Some (dirs, files))) cs ->
          In filename files ->
          contains fc filename = true ->
          exists error,
            In (Rename (join root filename)
                  (join root (replace filename fc rc)) error) cs)
    /\ walk_shape fc rc target cs
    /\ descends cs.
Proof.
  intros Hd Hh.
  destruct (walk_total fc rc fuel target (called (Isdir target true) w, 0))
    as ([w1 n] & Hwalk & _); [exact Hh|].
  assert (Hrun : rename_files fc rc fuel target w
                 = Some (print ("Finished. Renamed " ++ str_of_nat n ++ " files.") w1)).
  { unfold rename_files. rewrite Hd. cbn [negb]. now rewrite Hwalk. }
  destruct (rename_files_walked fc rc fuel target w _ Hd Hrun)
    as (cs & outs & Hcalls & Hout & [Htr1 Htr2] & Hrep).
  destruct (rename_files_shaped fc rc fuel target w _ Hd Hrun)
    as (cs' & Hcalls' & Hshape).
  rewrite Hcalls in Hcalls'. apply app_inv_head in Hcalls'.
  injection Hcalls' as <-.
  eexists _, cs, outs. split; [exact Hrun|].
  split; [exact Hcalls|]. split; [exact Hrep|].
  split; [exact Hout|]. split; [|split; [exact Htr2|split; [exact Hshape|]]].
  - intros src dst e Hin.
    destruct (Htr1 _ _ _ Hin) as (root & _ & _ & f & _ & _ & _ & -> & _ & Hline).
    now exists root, f.
  - apply (descends_shape fc rc target cs Hshape).
Qed.

Lemma failed_rename_witness :
  let w' := after (fresh collide) (rename_files "_" " " 8 "/r" (fresh collide)) in
  stdout w'
  = [Print "Error renaming 'a_b': [Errno 21] Is a directory: '/r/a_b' -> '/r/a b'";
     Print "Renamed: 'c_d' -> 'c d'";
     Print "Finished. Renamed 1 files."]
  /\ In (Scandir "/r/a b" (Some ([], []))) (calls w')
  /\ exists w'' cs outs,
       rename_files "_" " " 8 "/r" (fresh collide) = Some w''
       /\ calls w'' = ([] ++ Isdir "/r" true :: cs)%list
       /\ replays collide cs (disk w'')
       /\ stdout w''
          = ([] ++ outs
             ++ [Print ("Finished. Renamed " ++ str_of_nat (renamed cs)
                        ++ " files.")])%list
       /\ (forall src dst e,
             In (Rename src dst (Some e)) cs ->
             exists root filename,
               src = join root filename
               /\ In (Print ("Error renaming '" ++ filename ++ "': " ++ e)) outs)
       /\ (forall root dirs files filename,
             In (Scandir root (Some (dirs, files))) cs ->
             In filename files ->
             contains "_" filename = true ->
             exists error,
               In (Rename (join root filename)
                     (join root (replace filename "_" " ")) error) cs)
       /\ walk_shape "_" " " "/r" cs
       /\ descends cs.
Proof.
  split; [reflexivity|]. split; [vm_compute; tauto|].
  apply (failed_rename_does_not_stop_the_run "_" " " "/r" (fresh collide) 8);
    [reflexivity | vm_compute; lia].
Defined.

(** *** C8: the confirmation *)

(** C8: once the directory and the two tokens are read, and the
    configuration echoed, the answer to the question decides: on [y] and
    on [Y], and on no other answer, [rename_files] is run; on every other
    answer the line [Operation cancelled.] is printed and [main] returns
    with the disk as it was and no call made to the file system. *)
Theorem only_y_proceeds {fs : Type} `{FileSystem fs}
    (fuel : nat) (args : namespace) (w w1 w2 w3 : world fs)
    (stdin s1 s2 : list string) (target fc rc answer : string)
    (rest : list string) :
  read_target args w stdin = (w1, s1, Some target) ->
  read_token (arg_find args) "Enter character(s) to find (e.g. _): " w1 s1
  = (w2, s2, Some fc) ->
  read_token (arg_replace args)
    "Enter replacement character(s) (e.g. space): " w2 s2
  = (w3, answer :: rest, Some rc) ->
  let asked :=
    World (disk w)
      (stdout (echo target fc rc w3) ++ [Prompt (newline ++ "Proceed? (y/n): ")])
      (calls w) in
  main fuel args w stdin
  = if (answer =? "y") || (answer =? "Y")
    then option_map (fun w' => (w', rest, Returned))
           (rename_files fc rc fuel target asked)
    else Some (World (disk w) (stdout asked ++ [Print "Operation cancelled."])
                 (calls w),
               rest, Returned).
Proof.
  intros H1 H2 H3. unfold main. rewrite H1, H2, H3.
  apply read_target_quiet in H1 as [Hd1 Hc1].
  apply read_token_quiet in H2 as [Hd2 Hc2].
  apply read_token_quiet in H3 as [Hd3 Hc3].
  rewrite proceed_answered.
  replace (disk w3) with (disk w) by congruence.
  replace (calls w3) with (calls w) by congruence.
  reflexivity.
Qed.

Lemma only_y_proceeds_witness :
  main 8 (Namespace (Some "/r") None (Some " ")) (fresh demo) ["_"; "yes"]
  = Some (World demo
            [Prompt "Enter character(s) to find (e.g. _): ";
             Print (newline ++ "Configuration:");
             Print "  Directory: /r";
             Print "  Find:      '_'";
             Print "  Replace:   ' '";
             Prompt (newline ++ "Proceed? (y/n): ");
             Print "Operation cancelled."]
            [],
          [], Returned).
Proof.
  apply (only_y_proceeds 8 (Namespace (Some "/r") None (Some " "))
           (fresh demo) (fresh demo)
           (World demo [Prompt "Enter character(s) to find (e.g. _): "] [])
           (World demo [Prompt "Enter character(s) to find (e.g. _): "] [])
           ["_"; "yes"] ["_"; "yes"] ["yes"] "/r" "_" " " "yes" []);
    reflexivity.
Defined.

(** *** C9: the target path *)

(** Against C9 as stated: the quotes of a path given on the command line
    are not stripped.  With the argument ['d'] and the working directory
    [/home/u] the target is [/home/u/'d'], not [/home/u/d]. *)
Lemma argument_quotes_are_kept :
  read_target (Namespace (Some "'d'") None None) (fresh demo) []
  = (fresh demo, [], Some "/home/u/'d'")
  /\ abspath "/home/u" (unquote "'d'") = "/home/u/d".
Proof. split; reflexivity. Qed.

(** C9 (amended): every user-supplied target path is resolved to absolute
    form before use (the working directory being absolute).  A path
    entered at the prompt is first trimmed of surrounding white space
    and, when it then stands between two single quotes or two double
    quotes, stripped of them; a path given as a command-line argument is
    taken as it is, quotes included. *)
Theorem target_path_is_made_absolute {fs : Type} `{FileSystem fs}
    (w : world fs) (stdin : list string) (f r : option string) :
  isabs (getcwd (disk w)) = true ->
  (forall c p,
     exists target,
       read_target (Namespace (Some (String c p)) f r) w stdin
       = (w, stdin, Some target)
       /\ target = abspath (getcwd (disk w)) (String c p)
       /\ isabs target = true)
  /\ (forall d line rest,
        d = None \/ d = Some "" ->
        exists w' target,
          read_target (Namespace d f r) w (line :: rest) = (w', rest, Some target)
          /\ disk w' = disk w
          /\ target = abspath (getcwd (disk w)) (unquote (strip line))
          /\ isabs target = true
          /\ forall q body,
               q = "'"%char \/ String q "" = dquote ->
               strip line = String q (body ++ String q "") ->
               target = abspath (getcwd (disk w)) body).
Proof.
  intros Hcwd. split.
  - intros c p. eexists. split; [reflexivity|].
    split; [reflexivity | now apply abspath_absolute].
  - intros d line rest Hd.
    exists (World (disk w) (stdout w ++ [Prompt "Enter the directory to scan: "])
              (calls w)),
           (abspath (getcwd (disk w)) (unquote (strip line))).
    split; [destruct Hd as [->| ->]; reflexivity|].
    split; [reflexivity|]. split; [reflexivity|].
    split; [now apply abspath_absolute|].
    intros q body Hq ->. now rewrite unquote_quoted.
Qed.

Lemma target_path_witness :
  isabs (getcwd (disk (fresh demo))) = true
  /\ read_target (Namespace None None None) (fresh demo) ["  'my dir/x' "]
     = (World demo [Prompt "Enter the directory to scan: "] [], [],
        Some "/home/u/my dir/x")
  /\ exists target,
       read_target (Namespace (Some "r/../s") None None) (fresh demo) []
       = (fresh demo, [], Some target)
       /\ target = abspath "/home/u" "r/../s"
       /\ isabs target = true.
Proof.
  assert (Hcwd : isabs (getcwd (disk (fresh demo))) = true) by reflexivity.
  split; [exact Hcwd|]. split; [reflexivity|].
  apply (proj1 (target_path_is_made_absolute (fresh demo) [] None None Hcwd)).
Defined.

(** *** C10: find token equal to replace token *)

(** C10: when the find token and the replace token are the same, the new
    name of a candidate is its old name: the rename asked for is from its
    path to the same path, and when that goes through the file is
    reported as renamed and counted.  So the count reported can exceed
    the number of names that changed: in the run on [demo] with [_] for
    both tokens three files are reported renamed and the disk is as it
    was. *)
Theorem same_token_is_counted_as_renamed {fs : Type} `{FileSystem fs}
    (fc root : string) (w : world fs) (n : nat) (filename : string) (d' : fs) :
  contains fc filename = true ->
  rename (disk w) (join root filename) (join root filename) = inl d' ->
  replace filename fc fc = filename
  /\ rename_one fc fc root (w, n) filename
     = (World d'
          (stdout w ++ [Print ("Renamed: '" ++ filename ++ "' -> '"
                               ++ filename ++ "'")])
          (calls w ++ [Rename (join root filename) (join root filename) None]),
        S n)
  /\ exists w' : world MemFS.t,
       rename_files "_" "_" 8 "/r" (fresh demo) = Some w'
       /\ disk w' = demo
       /\ last (stdout w') (Print "") = Print "Finished. Renamed 3 files.".
Proof.
  intros Hc Hr. split; [apply replace_same|]. split.
  - unfold rename_one. rewrite Hc, replace_same, Hr. reflexivity.
  - eexists. split; [vm_compute; reflexivity|]. split; reflexivity.
Qed.

Lemma same_token_witness :
  contains "_" "a_b.txt" = true
  /\ rename demo (join "/r" "a_b.txt") (join "/r" "a_b.txt") = inl demo
  /\ rename_one "_" "_" "/r" (fresh demo, 0) "a_b.txt"
     = (World demo [Print "Renamed: 'a_b.txt' -> 'a_b.txt'"]
          [Rename "/r/a_b.txt" "/r/a_b.txt" None], 1).
Proof.
  assert (Hc : contains "_" "a_b.txt" = true) by reflexivity.
  assert (Hr : rename (disk (fresh demo)) (join "/r" "a_b.txt")
                 (join "/r" "a_b.txt") = inl demo) by reflexivity.
  split; [exact Hc|]. split; [exact Hr|].
  apply (same_token_is_counted_as_renamed "_" "/r" (fresh demo) 0 "a_b.txt" demo
           Hc Hr).
Defined.

(** ** Further properties of the program *)

(** *** The walk *)

(** X1: the calls of a run on a directory are made top-down ([os.walk]
    in its recursive form): after the test of the target, its listing,
    then one rename for each candidate of the listing, in listing order
    and whatever the renames answer, then for each subdirectory in
    listing order the link test and, unless it is a link, the same for
    that subdirectory. *)
Theorem run_is_top_down {fs : Type} `{FileSystem fs}
    (fc rc : string) (fuel : nat) (target : string) (w w' : world fs) :
  isdir (disk w) target = true ->
  rename_files fc rc fuel target w = Some w' ->
  exists cs,
    calls w' = (calls w ++ Isdir target true :: cs)%list
    /\ walk_shape fc rc target cs.
Proof. apply rename_files_shaped. Qed.

Lemma run_is_top_down_witness :
  exists cs,
    calls (after (fresh demo) (rename_files "_" " " 8 "/r" (fresh demo)))
    = ([] ++ Isdir "/r" true :: cs)%list
    /\ walk_shape "_" " " "/r" cs.
Proof.
  apply (run_is_top_down "_" " " 8 "/r" (fresh demo));
    [reflexivity | vm_compute; reflexivity].
Defined.

(** X2: a run that returns has gone through the whole tree: every
    subdirectory of every directory it listed had its path tested for a
    link and, when it is not one, was listed in its turn. *)
Theorem every_subdirectory_is_visited {fs : Type} `{FileSystem fs}
    (fc rc : string) (fuel : nat) (target : string) (w w' : world fs)
    (cs : list call) :
  rename_files fc rc fuel target w = Some w' ->
  calls w' = (calls w ++ cs)%list ->
  descends cs.
Proof.
  intros Hrun Hcs.
  destruct (rename_files_calls fc rc fuel target w w' cs Hrun Hcs)
    as [->|(cs0 & -> & Hs)].
  - intros t ds fs' d [Hin|[]]. discriminate.
  - destruct (descends_shape fc rc target cs0 Hs) as [_ Hd].
    intros t ds fs' d [Hin|Hin] Hdin; [discriminate|].
    destruct (Hd _ _ _ _ Hin Hdin) as (l & Hl & Hr).
    exists l. split; [now right|].
    intros El. destruct (Hr El) as [r Hr']. exists r. now right.
Qed.

Lemma every_subdirectory_witness :
  descends (calls (after (fresh demo) (rename_files "_" " " 8 "/r" (fresh demo)))).
Proof.
  apply (every_subdirectory_is_visited "_" " " 8 "/r" (fresh demo)
           (after (fresh demo) (rename_files "_" " " 8 "/r" (fresh demo))));
    [vm_compute; reflexivity | reflexivity].
Defined.

(** X3: a run lists nothing but what the descent reaches: every path it
    lists is the target or a subdirectory, by its listing, of a directory
    the run listed, whose link test answered no: the run lists no path
    of its own making, and none that it found to be a symbolic link. *)
Theorem listed_only_by_descent {fs : Type} `{FileSystem fs}
    (fc rc : string) (fuel : nat) (target : string) (w w' : world fs)
    (cs : list call) :
  rename_files fc rc fuel target w = Some w' ->
  calls w' = (calls w ++ cs)%list ->
  listed_by_descent target cs.
Proof.
  intros Hrun Hcs.
  destruct (rename_files_calls fc rc fuel target w w' cs Hrun Hcs)
    as [->|(cs0 & -> & Hs)].
  - intros p r [Hin|[]]. discriminate.
  - pose proof (listed_shape fc rc target cs0 Hs) as Hd.
    intros p r [Hin|Hin]; [discriminate|].
    destruct (Hd p r Hin) as [->|(t & ds & fs' & d & Ht & Hdin & -> & Hl)];
      [now left | right].
    exists t, ds, fs', d. repeat split; auto; now right.
Qed.

Lemma listed_only_by_descent_witness :
  listed_by_descent "/r"
    (calls (after (fresh demo) (rename_files "_" " " 8 "/r" (fresh demo)))).
Proof.
  apply (listed_only_by_descent "_" " " 8 "/r" (fresh demo)
           (after (fresh demo) (rename_files "_" " " 8 "/r" (fresh demo))));
    [vm_compute; reflexivity | reflexivity].
Defined.

(** X4: with listings that give plain names, a run never leaves its
    target: every path it tests or lists is the target or below it, every
    path it renames is below it, and so is the new path of every rename
    when the replace token has no separator. *)
Theorem run_stays_below_target {fs : Type} `{FileSystem fs}
    (fc rc : string) (fuel : nat) (target : string) (w w' : world fs)
    (cs : list call) :
  rename_files fc rc fuel target w = Some w' ->
  calls w' = (calls w ++ cs)%list ->
  forallb plain_entries cs = true ->
  forallb (within target (plain_name rc)) cs = true.
Proof.
  intros Hrun Hcs Hp.
  destruct (rename_files_calls fc rc fuel target w w' cs Hrun Hcs)
    as [->|(cs0 & -> & Hs)].
  - cbn. now rewrite String.eqb_refl.
  - cbn [forallb within plain_entries] in *. rewrite String.eqb_refl.
    cbn [orb andb] in *. now apply (within_shape fc rc).
Qed.

Lemma run_stays_below_target_witness :
  forallb (within "/r" true)
    (calls (after (fresh demo) (rename_files "_" " " 8 "/r" (fresh demo))))
  = true.
Proof.
  apply (run_stays_below_target "_" " " 8 "/r" (fresh demo)
           (after (fresh demo) (rename_files "_" " " 8 "/r" (fresh demo))));
    [vm_compute; reflexivity | reflexivity | vm_compute; reflexivity].
Defined.

(** X5: when no file name in any listing of the run contains the find
    token (a tree without candidates, an empty directory, a directory
    that cannot be listed), the run asks for no rename, leaves the disk
    as it was and prints the one line [Finished. Renamed 0 files.]. *)
Theorem nothing_to_rename {fs : Type} `{FileSystem fs}
    (fc rc : string) (fuel : nat) (target : string) (w w' : world fs)
    (cs : list call) :
  isdir (disk w) target = true ->
  rename_files fc rc fuel target w = Some w' ->
  calls w' = (calls w ++ cs)%list ->
  forallb (no_candidate fc) cs = true ->
  attempts cs = 0
  /\ disk w' = disk w
  /\ stdout w' = (stdout w ++ [Print "Finished. Renamed 0 files."])%list.
Proof.
  intros Hd Hrun Hcs Hno.
  destruct (rename_files_walked fc rc fuel target w w' Hd Hrun)
    as (cs0 & outs & Hcalls & Hout & [Htr _] & Hrep).
  pose proof (rename_files_lines fc rc fuel target w w' Hrun) as Hlines.
  rewrite Hcs in Hcalls. apply app_inv_head in Hcalls. subst cs.
  assert (Hquiet : forall c, In c cs0 -> is_rename c = false).
  { intros [p a|p a|p a|src dst e] Hin; try reflexivity. exfalso.
    destruct (Htr _ _ _ Hin) as (root & dirs & files & f & Hs & Hf & Hc & _).
    rewrite forallb_forall in Hno.
    specialize (Hno _ (or_intror Hs)). cbn in Hno.
    rewrite forallb_forall in Hno. specialize (Hno f Hf).
    rewrite Hc in Hno. discriminate. }
  assert (Ha : attempts cs0 = 0)
    by (unfold attempts; now rewrite (filter_none _ _ Hquiet)).
  assert (Hr : renamed cs0 = 0).
  { unfold renamed. rewrite filter_none; [reflexivity|].
    intros c Hin. specialize (Hquiet c Hin). now destruct c. }
  split; [exact Ha|]. split.
  - symmetry. now apply (replays_quiet _ _ cs0).
  - rewrite Hcs, attempts_app in Hlines.
    change (Isdir target true :: cs0) with ([Isdir target true] ++ cs0)%list in Hlines.
    rewrite attempts_app, attempts_one, Ha in Hlines. cbn [is_rename] in Hlines.
    rewrite Hout, !List.length_app in Hlines. cbn [List.length] in Hlines.
    destruct outs; [|cbn in Hlines; lia].
    rewrite Hout, Hr. reflexivity.
Qed.

Lemma nothing_to_rename_witness :
  let w' := after (fresh demo) (rename_files "zz" "-" 8 "/r" (fresh demo)) in
  attempts (calls w') = 0
  /\ disk w' = demo
  /\ stdout w' = ([] ++ [Print "Finished. Renamed 0 files."])%list.
Proof.
  apply (nothing_to_rename "zz" "-" 8 "/r" (fresh demo)
           (after (fresh demo) (rename_files "zz" "-" 8 "/r" (fresh demo))));
    [reflexivity | vm_compute; reflexivity | reflexivity
     | vm_compute; reflexivity].
Defined.

(** X6: a run prints one line for each rename it asked for, gone through
    or failed, and one line to close; nothing is printed for a directory
    passed over because it could not be listed or is a link. *)
Theorem one_line_for_each_rename {fs : Type} `{FileSystem fs}
    (fc rc : string) (fuel : nat) (target : string) (w w' : world fs)
    (cs : list call) :
  rename_files fc rc fuel target w = Some w' ->
  calls w' = (calls w ++ cs)%list ->
  exists outs,
    stdout w' = (stdout w ++ outs)%list
    /\ List.length outs = attempts cs + 1.
Proof.
  intros Hrun Hcs.
  pose proof (rename_files_lines fc rc fuel target w w' Hrun) as Hlines.
  rewrite Hcs, attempts_app in Hlines.
  destruct (isdir (disk w) target) eqn:Hd.
  - destruct (rename_files_walked fc rc fuel target w w' Hd Hrun)
      as (cs0 & outs & _ & Hout & _).
    eexists. split; [exact Hout|].
    rewrite Hout, !List.length_app in Hlines. rewrite List.length_app. lia.
  - rewrite (rename_files_missing fc rc fuel target w Hd) in Hrun.
    injection Hrun as <-. cbn [stdout] in *.
    eexists. split; [reflexivity|].
    rewrite List.length_app in Hlines. lia.
Qed.

Lemma one_line_for_each_rename_witness :
  let w' := after (fresh collide) (rename_files "_" " " 8 "/r" (fresh collide)) in
  exists outs,
    stdout w' = ([] ++ outs)%list
    /\ List.length outs = attempts (calls w') + 1.
Proof.
  apply (one_line_for_each_rename "_" " " 8 "/r" (fresh collide)
           (after (fresh collide) (rename_files "_" " " 8 "/r" (fresh collide))));
    [vm_compute; reflexivity | reflexivity].
Defined.

(** *** [main] and its input *)

(** X7: when [main] stops because the input ran out ([EOFError]), the
    input had fewer lines than the command line left to ask for, and
    nothing was done: the disk is as it was and no call was made to the
    file system. *)
Theorem end_of_input_does_nothing {fs : Type} `{FileSystem fs}
    (fuel : nat) (args : namespace) (w w' : world fs)
    (stdin stdin' : list string) :
  main fuel args w stdin = Some (w', stdin', EOFError) ->
  List.length stdin < lines_read args
  /\ disk w' = disk w /\ calls w' = calls w.
Proof.
  intros Hm. destruct (main_reads fuel args w w' stdin stdin' EOFError Hm)
    as (Hl & _ & Hd & Hc).
  auto.
Qed.

Lemma end_of_input_witness :
  let args := Namespace None (Some "_") None in
  main 8 args (fresh demo) ["/r"; " "]
  = Some (World demo
            [Prompt "Enter the directory to scan: ";
             Prompt "Enter replacement character(s) (e.g. space): ";
             Print (newline ++ "Configuration:");
             Print "  Directory: /r";
             Print "  Find:      '_'";
             Print "  Replace:   ' '";
             Prompt (newline ++ "Proceed? (y/n): ")] [],
          [], EOFError)
  /\ List.length ["/r"; " "] < lines_read args.
Proof.
  assert (Hm : main 8 (Namespace None (Some "_") None) (fresh demo) ["/r"; " "]
               = Some (World demo
                         [Prompt "Enter the directory to scan: ";
                          Prompt "Enter replacement character(s) (e.g. space): ";
                          Print (newline ++ "Configuration:");
                          Print "  Directory: /r";
                          Print "  Find:      '_'";
                          Print "  Replace:   ' '";
                          Prompt (newline ++ "Proceed? (y/n): ")] [],
                       [], EOFError)) by reflexivity.
  split; [exact Hm|].
  apply (end_of_input_does_nothing 8 (Namespace None (Some "_") None)
           (fresh demo) _ ["/r"; " "] [] Hm).
Defined.

(** X8: when [main] returns, it has read from the input one line for
    each of the three values that the command line did not give (a
    directory given as the empty string counts as not given; a token
    given as the empty string is taken as given) and one line for the
    answer, and no more. *)
Theorem main_reads_what_is_missing {fs : Type} `{FileSystem fs}
    (fuel : nat) (args : namespace) (w w' : world fs)
    (stdin stdin' : list string) :
  main fuel args w stdin = Some (w', stdin', Returned) ->
  lines_read args <= List.length stdin
  /\ stdin' = skipn (lines_read args) stdin.
Proof. intros Hm. apply (main_reads fuel args w w' stdin stdin' Returned Hm). Qed.

Lemma main_reads_witness :
  let args := Namespace (Some "") (Some "") None in
  option_map snd (main 8 args (fresh demo) ["/r"; "-"; "n"; "left"])
  = Some Returned
  /\ lines_read args = 3
  /\ ["left"] = skipn (lines_read args) ["/r"; "-"; "n"; "left"].
Proof.
  split; [reflexivity|]. split; [reflexivity|].
  eapply (main_reads_what_is_missing 8 (Namespace (Some "") (Some "") None)
            (fresh demo) _ ["/r"; "-"; "n"; "left"] ["left"]).
  vm_compute. reflexivity.
Defined.

(** *** The new name *)

(** X9: with a find token of one character that the replace token does
    not contain (underscore to space, say), the new name no longer
    contains the find token: a file once renamed is no candidate in a
    later run, whose loop leaves it alone. *)
Theorem one_character_find_is_settled {fs : Type} `{FileSystem fs}
    (c : ascii) (rc filename root : string) (st : world fs * nat) :
  contains (String c "") rc = false ->
  let new_filename := replace filename (String c "") rc in
  contains (String c "") new_filename = false
  /\ replace new_filename (String c "") rc = new_filename
  /\ rename_one (String c "") rc root st new_filename = st.
Proof.
  intros Hrc new_filename.
  assert (Hgone : contains (String c "") new_filename = false)
    by now apply replace_char_gone.
  split; [exact Hgone|]. split.
  - now apply replace_absent.
  - now apply rename_one_skip.
Qed.

Lemma one_character_find_witness :
  contains "_" " " = false
  /\ contains "_" (replace "a_b_c.txt" "_" " ") = false
  /\ replace (replace "a_b_c.txt" "_" " ") "_" " " = replace "a_b_c.txt" "_" " "
  /\ rename_one "_" " " "/r" (fresh demo, 0) (replace "a_b_c.txt" "_" " ")
     = (fresh demo, 0).
Proof.
  split; [reflexivity|].
  apply (one_character_find_is_settled "_"%char " " "a_b_c.txt" "/r"
           (fresh demo, 0)).
  reflexivity.
Defined.

(** X10: with a non-empty find token and the empty replace token, the new
    name of a candidate is empty exactly when the file name is made of
    copies of the find token and nothing else; the rename then asked for
    is to the path of the directory itself with its separator, not to a
    name in it. *)
Theorem new_name_can_be_empty {fs : Type} `{FileSystem fs}
    (fc filename root : string) (w : world fs) (k : nat) :
  fc <> "" ->
  contains fc filename = true ->
  (replace filename fc "" = "" <-> exists n, filename = copies (S n) fc)
  /\ (replace filename fc "" = "" ->
      exists error,
        calls (fst (rename_one fc "" root (w, k) filename))
        = (calls w ++ [Rename (join root filename) (dir_prefix root) error])%list).
Proof.
  intros Hne Hc. split; [split|].
  - intros Hr. destruct (replace_to_nothing filename fc Hne Hr) as [[|n] ->].
    + cbn in Hc. rewrite orb_false_r in Hc.
      destruct fc; [contradiction | discriminate].
    + now exists n.
  - intros [n ->]. now apply replace_copies.
  - intros Hr.
    destruct (rename_one_candidate fc "" root w k filename Hc)
      as (d' & error & E & _).
    exists error. rewrite E. cbn [fst calls attempt].
    now rewrite Hr, join_nothing.
Qed.

Lemma new_name_can_be_empty_witness :
  "__" <> "" /\ contains "__" "____" = true
  /\ replace "____" "__" "" = ""
  /\ exists error,
       calls (fst (rename_one "__" "" "/r" (fresh demo, 0) "____"))
       = ([] ++ [Rename "/r/____" "/r/" error])%list.
Proof.
  assert (Hne : "__" <> "") by discriminate.
  assert (Hc : contains "__" "____" = true) by reflexivity.
  split; [exact Hne|]. split; [exact Hc|]. split; [reflexivity|].
  apply (proj2 (new_name_can_be_empty "__" "____" "/r" (fresh demo) 0 Hne Hc)).
  reflexivity.
Defined.

(** X11: the new name of a candidate has the length of the old one plus,
    for each of the replacements made (at least one), the length of the
    replace token in place of that of the find token; tokens of the same
    length keep the length of the name. *)
Theorem new_name_length (fc rc filename : string) :
  contains fc filename = true ->
  0 < count filename fc
  /\ length (replace filename fc rc) + count filename fc * length fc
     = length filename + count filename fc * length rc
  /\ (length rc = length fc ->
      length (replace filename fc rc) = length filename).
Proof.
  intros Hc. pose proof (length_replace filename fc rc) as Hl.
  split; [now apply count_pos|]. split; [exact Hl|].
  intros E. rewrite E in Hl. lia.
Qed.

Lemma new_name_length_witness :
  contains "_" "a_b_c.txt" = true
  /\ count "a_b_c.txt" "_" = 2
  /\ length (replace "a_b_c.txt" "_" "--") + 2 * 1 = 9 + 2 * 2.
Proof.
  assert (Hc : contains "_" "a_b_c.txt" = true) by reflexivity.
  split; [exact Hc|]. split; [reflexivity|].
  apply (proj1 (proj2 (new_name_length "_" "--" "a_b_c.txt" Hc))).
Defined.

(** *** The directory prompt *)

(** X12: an entry at the directory prompt that, trimmed, is empty or is a
    single quote character (the test of lines 45-46 takes the one
    character for both the opening and the closing quote) gives the
    working directory, normalised, as the target. *)
Theorem blank_entry_is_working_directory {fs : Type} `{FileSystem fs}
    (d f r : option string) (w : world fs) (line : string)
    (rest : list string) :
  d = None \/ d = Some "" ->
  strip line = "" \/ strip line = "'" \/ strip line = dquote ->
  read_target (Namespace d f r) w (line :: rest)
  = (World (disk w) (stdout w ++ [Prompt "Enter the directory to scan: "])
       (calls w),
     rest, Some (normpath (getcwd (disk w)))).
Proof.
  intros Hd Hline.
  assert (Hu : unquote (strip line) = "")
    by (destruct Hline as [->|[->| ->]]; reflexivity).
  destruct Hd as [->| ->]; unfold read_target, input;
    cbn [arg_directory option_map disk]; now rewrite Hu, abspath_nothing.
Qed.

Lemma blank_entry_witness :
  strip "  ' " = "'"
  /\ read_target (Namespace None None None) (fresh demo) ["  ' "; "_"]
     = (World demo [Prompt "Enter the directory to scan: "] [], ["_"],
        Some "/home/u").
Proof.
  assert (Hs : strip "  ' " = "'") by reflexivity.
  split; [exact Hs|].
  exact (blank_entry_is_working_directory None None None (fresh demo)
           "  ' " ["_"] (or_introl eq_refl) (or_intror (or_introl Hs))).
Defined.

(** *** More on the output, the quotes and the new name *)

(** X13: in a run on a directory the lines printed before the closing
    line are the reports of the renames asked for, one for one and in the
    order of the renames; the closing line gives the number of those
    that went through. *)
Theorem lines_follow_renames {fs : Type} `{FileSystem fs}
    (fc rc : string) (fuel : nat) (target : string) (w w' : world fs)
    (cs : list call) :
  isdir (disk w) target = true ->
  rename_files fc rc fuel target w = Some w' ->
  calls w' = (calls w ++ cs)%list ->
  exists outs,
    stdout w'
    = (stdout w ++ outs
       ++ [Print ("Finished. Renamed " ++ str_of_nat (renamed cs)
                  ++ " files.")])%list
    /\ Forall2 (reported fc rc) (filter is_rename cs) outs.
Proof.
  intros Hd Hrun Hcs. unfold rename_files in Hrun. rewrite Hd in Hrun.
  cbn [negb] in Hrun.
  destruct (walk fc rc fuel target _) as [[w1 n]|] eqn:E; [|discriminate].
  injection Hrun as <-.
  destruct (walk_reports fc rc _ _ _ _ E) as (cs1 & outs & H1 & H2 & H3).
  destruct (walk_extends fc rc _ _ _ _ E) as (cs2 & _ & H1' & _ & H3' & _).
  cbn [fst snd calls stdout called print] in *.
  rewrite H1 in H1'. apply app_inv_head in H1'. subst cs2.
  rewrite H1, <- app_assoc in Hcs. apply app_inv_head in Hcs. subst cs.
  exists outs. rewrite H2, H3', <- app_assoc. split; [|exact H3].
  reflexivity.
Qed.

Lemma lines_follow_renames_witness :
  let w' := after (fresh collide) (rename_files "_" " " 8 "/r" (fresh collide)) in
  exists outs,
    stdout w'
    = ([] ++ outs
       ++ [Print ("Finished. Renamed " ++ str_of_nat (renamed (calls w'))
                  ++ " files.")])%list
    /\ Forall2 (reported "_" " ") (filter is_rename (calls w')) outs.
Proof.
  apply (lines_follow_renames "_" " " 8 "/r" (fresh collide)
           (after (fresh collide) (rename_files "_" " " 8 "/r" (fresh collide))));
    [reflexivity | vm_compute; reflexivity | reflexivity].
Defined.

(** X14: the handling of quotes (lines 45-47) takes nothing off an
    entered path but quote characters: the path comes back as it is, or
    it is a quote character alone and comes back empty, or it is what
    comes back between two quote characters of the same kind. *)
Theorem unquote_strips_only_quotes (s : string) :
  unquote s = s
  \/ exists q, is_quote q
               /\ ((s = q /\ unquote s = "") \/ s = q ++ unquote s ++ q).
Proof.
  unfold unquote.
  destruct (startswith s dquote && endswith s dquote) eqn:Ed.
  - right. exists dquote. split; [now right|].
    apply andb_true_iff in Ed as [Hs He]. cbn [orb].
    destruct (quoted_split _ s Hs He) as [[-> ->]|(body & -> & ->)];
      [left | right]; auto.
  - cbn [orb]. destruct (startswith s "'" && endswith s "'") eqn:Es.
    + right. exists "'". split; [now left|].
      apply andb_true_iff in Es as [Hs He].
      destruct (quoted_split _ s Hs He) as [[-> ->]|(body & -> & ->)];
        [left | right]; auto.
    + now left.
Qed.

(** X15: the new name of a candidate is its old name only when the
    replace token is the find token; with different tokens every rename
    asked for is to a different name. *)
Theorem candidate_changes_its_name (fc rc filename : string) :
  contains fc filename = true ->
  (replace filename fc rc = filename <-> rc = fc).
Proof.
  intros Hc. split.
  - now apply replace_changes.
  - intros ->. apply replace_same.
Qed.

Lemma candidate_changes_its_name_witness :
  contains "ab" "xabab" = true
  /\ (replace "xabab" "ab" "ba" = "xabab" <-> "ba" = "ab").
Proof.
  assert (Hc : contains "ab" "xabab" = true) by reflexivity.
  split; [exact Hc|].
  apply (candidate_changes_its_name "ab" "ba" "xabab" Hc).
Defined.
